(** * Decoding of captcha-OCR score tensors: [CaptchaOcrTester.postprocess_output]

    A shallow embedding of the decoding half of [test_captcha_models.py]
    (class [CaptchaOcrTester]): the static tables [CHAR_SETS] and
    [MODEL_CONFIGS], [get_model_config], and every path of
    [postprocess_output]: the tokenizer format of [model.onnx] /
    [captcha.onnx], the CTC format of the CRNN model, the flat segmented
    format of the v1..v8 models, and the generic reshaping path with its
    character-set inference and variant scoring.

    Conventions of the embedding.
    - A Python [str] is a [string]; file names and labels are taken to be
      ASCII, so [str.lower] and [str.isdigit] are the ASCII ones.
    - A Python exception is a value [Raise e] of the type [result].
    - A numpy array is its shape together with its elements in row-major
      order.  Scores are kept abstract: the code only compares them
      ([np.argmax], [np.argsort], [np.min ... < 0]) and passes rows through
      a softmax, which is taken as a parameter.  *)

From Stdlib Require Import List String Ascii ZArith Lia Bool Arith PeanoNat.
Import ListNotations.

Local Open Scope string_scope.
Local Open Scope list_scope.

(** ** Python exceptions and the error monad *)

Inductive pyexc : Type :=
| ValueError
| IndexError
| KeyError
| TypeError
| UnboundLocalError.

Inductive result (A : Type) : Type :=
| Ok (a : A)
| Raise (e : pyexc).

Arguments Ok {A} a.
Arguments Raise {A} e.

Definition bind {A B : Type} (r : result A) (k : A -> result B) : result B :=
  match r with
  | Ok a => k a
  | Raise e => Raise e
  end.

Notation "x <- e ;; k" := (bind e (fun x => k))
  (at level 61, e at next level, right associativity).

(** ** Strings as Python uses them *)

(** [s[i]] for [0 <= i]; out of range raises [IndexError]. *)
Definition str_at (s : string) (i : nat) : result string :=
  match String.get i s with
  | Some c => Ok (String c EmptyString)
  | None => Raise IndexError
  end.

(** [chr(n)], for code points that fit one byte. *)
Definition chr (n : Z) : string :=
  String (ascii_of_N (Z.to_N n)) EmptyString.

(** [ord(c)]. *)
Definition ord (c : ascii) : Z := Z.of_N (N_of_ascii c).

Definition lower_ascii (c : ascii) : ascii :=
  let n := N_of_ascii c in
  if ((65 <=? n) && (n <=? 90))%N then ascii_of_N (n + 32) else c.

(** [s.lower()]. *)
Fixpoint lower (s : string) : string :=
  match s with
  | EmptyString => EmptyString
  | String c s' => String (lower_ascii c) (lower s')
  end.

(** [needle in hay]. *)
Fixpoint contains (needle hay : string) : bool :=
  String.prefix needle hay ||
  match hay with
  | EmptyString => false
  | String _ hay' => contains needle hay'
  end.

(** [s.endswith(suffix)]. *)
Fixpoint endswith (s suffix : string) : bool :=
  (s =? suffix) ||
  match s with
  | EmptyString => false
  | String _ s' => endswith s' suffix
  end.

Definition is_digit (c : ascii) : bool :=
  let n := N_of_ascii c in ((48 <=? n) && (n <=? 57))%N.

Fixpoint all_digits (s : string) : bool :=
  match s with
  | EmptyString => true
  | String c s' => is_digit c && all_digits s'
  end.

(** [s.isdigit()]: non-empty and only digits. *)
Definition isdigit (s : string) : bool :=
  match s with
  | EmptyString => false
  | _ => all_digits s
  end.

(** Truth value of a [str]. *)
Definition nonempty (s : string) : bool :=
  match s with
  | EmptyString => false
  | _ => true
  end.

(** ** The static tables *)

Definition CHAR_SETS : list (string * string) :=
  [ ("63", "abcdefghijklmnopqrstuvwxyzABCDEFGHIJKLMNOPQRSTUVWXYZ0123456789$");
    ("37_uppercase", "ABCDEFGHIJKLMNOPQRSTUVWXYZ0123456789$");
    ("37_lowercase", "abcdefghijklmnopqrstuvwxyz0123456789$");
    ("11", "0123456789$") ].

Definition MODEL_CONFIGS : list (string * (nat * string)) :=
  [ ("v1", (6, "63"));
    ("v2", (6, "11"));
    ("v3", (5, "63"));
    ("v4", (6, "37_lowercase"));
    ("v5", (5, "37_uppercase"));
    ("v6", (4, "63"));
    ("v7", (6, "11"));
    ("v8", (5, "37_uppercase")) ].

(** Lookup in a dict written as an association list. *)
Fixpoint dict_get {V : Type} (d : list (string * V)) (k : string) : option V :=
  match d with
  | [] => None
  | (k', v) :: d' => if (k' =? k)%string then Some v else dict_get d' k
  end.

(** [d[k]], raising [KeyError]. *)
Definition dict_item {V : Type} (d : list (string * V)) (k : string) : result V :=
  match dict_get d k with
  | Some v => Ok v
  | None => Raise KeyError
  end.

(** ** [get_model_config] *)

(** The three shapes of the pair the function returns: the marker
    [("special", "captcha.onnx")], an entry of [MODEL_CONFIGS], or
    [(None, None)]. *)
Inductive model_config : Type :=
| Special
| Known (seq_len : nat) (char_set_key : string)
| NoConfig.

Fixpoint take_digits (s : string) : string :=
  match s with
  | String c s' => if is_digit c then String c (take_digits s') else EmptyString
  | EmptyString => EmptyString
  end.

(** [re.search(r'v(\d+)', s)]: the digits of the leftmost match. *)
Fixpoint search_version (s : string) : option string :=
  match s with
  | EmptyString => None
  | String c s' =>
      if Ascii.eqb c "v"%char then
        match take_digits s' with
        | EmptyString => search_version s'
        | ds => Some ds
        end
      else search_version s'
  end.

Definition get_model_config (model_filename : string) : model_config :=
  let model_lower := lower model_filename in
  if (model_lower =? "model.onnx") || endswith model_lower "/model.onnx" ||
     (model_lower =? "captcha.onnx") || endswith model_lower "/captcha.onnx"
  then Special
  else
    match search_version (lower model_filename) with
    | Some ds =>
        match dict_get MODEL_CONFIGS (String "v"%char ds) with
        | Some (seq_len, key) => Known seq_len key
        | None => NoConfig
        end
    | None => NoConfig
    end.

(** [any(f"captcha_model_v{i}.onnx" in model_filename.lower() for i in range(1, 9))] *)
Definition is_v1_v8_model (model_filename : string) : bool :=
  existsb (fun i => contains ("captcha_model_v" ++ i ++ ".onnx") (lower model_filename))
          ["1"; "2"; "3"; "4"; "5"; "6"; "7"; "8"].

(** ** Tokenizer format ([model.onnx], [captcha.onnx])

    Token ids: [[E]] is 0, then the charset, then [[UNK]], [[B]], [[P]]. *)

Module Tokenizer.

Local Open Scope Z_scope.

Definition eos_id : Z := 0.

Definition charset_captcha_onnx : string :=
  "0123456789abcdefghijklmnopqrstuvwxyzABCDEFGHIJKLMNOPQRSTUVWXYZ".

Definition charset_digits_first : string :=
  "0123456789abcdefghijklmnopqrstuvwxyzABCDEFGHIJKLMNOPQRSTUVWXYZ$".

(** [self.CHAR_SETS["63"]] *)
Definition charset_63 : string :=
  match dict_get CHAR_SETS "63" with
  | Some s => s
  | None => ""
  end.

Definition len (s : string) : Z := Z.of_nat (String.length s).

(** The locals the two branches of the code set up before the loop. *)
Record token_ids : Type := {
  unk_id : Z;
  bos_id : Z;
  pad_id : Z;
  charset : string
}.

(** Branch [if "captcha.onnx" in model_filename.lower()]. *)
Definition charset_start : Z := 1.
Definition charset_end : Z := len charset_captcha_onnx.

Definition captcha_ids : token_ids :=
  let unk := charset_end + 1 in
  let bos := unk + 1 in
  let pad := bos + 1 in
  {| unk_id := unk; bos_id := bos; pad_id := pad; charset := charset_captcha_onnx |}.

(** Branch [else]: 95 classes, 4 of them special. *)
Definition charset_size : Z := 95 - 4.

Definition other_ids : token_ids :=
  {| unk_id := charset_size + 1;
     bos_id := charset_size + 2;
     pad_id := charset_size + 3;
     charset :=
       if len charset_digits_first <=? charset_size then charset_digits_first
       else if len charset_63 <=? charset_size then charset_63
       else String.substring 0 (Z.to_nat charset_size) charset_digits_first |}.

Definition ids (captcha : bool) : token_ids :=
  if captcha then captcha_ids else other_ids.

Definition is_special (t : token_ids) (idx : Z) : bool :=
  (idx =? unk_id t) || (idx =? bos_id t) || (idx =? pad_id t).

(** What one iteration of the loop appends to [text], for an index that is
    not [eos_id]. *)
Definition emit (captcha : bool) (idx : Z) : result string :=
  if captcha then
    if is_special captcha_ids idx then Ok ""
    else if (charset_start <=? idx) && (idx <=? charset_end) then
      str_at (charset captcha_ids) (Z.to_nat (idx - charset_start))
    else if pad_id captcha_ids <? idx then Ok ""
    else Ok ""
  else
    if is_special other_ids idx then Ok ""
    else if (1 <=? idx) && (idx <=? len (charset other_ids)) then
      str_at (charset other_ids) (Z.to_nat (idx - 1))
    else if 1 <=? charset_size then
      let ascii_code := 32 + idx - 1 in
      if (32 <=? ascii_code) && (ascii_code <=? 126) then
        if negb (ascii_code =? 32) then Ok (chr ascii_code) else Ok ""
      else Ok ""
    else Ok "".

(** The loop [for idx in char_indices], with its [break] at [eos_id]. *)
Fixpoint decode (captcha : bool) (char_indices : list Z) : result string :=
  match char_indices with
  | [] => Ok ""
  | idx :: rest =>
      if idx =? eos_id then Ok ""
      else
        c <- emit captcha idx ;;
        text <- decode captcha rest ;;
        Ok (c ++ text)%string
  end.

End Tokenizer.

(** ** CTC format (CRNN model) *)

Module Ctc.

Local Open Scope Z_scope.

(** One entry of [mappings_config]; [letter2] is the optional second
    letter range of the 11-tuples. *)
Record mapping : Type := {
  mapping_name : string;
  blank_id : Z;
  digit_start : Z;
  digit_end : Z;
  letter_start : Z;
  letter_end : Z;
  digit_char : ascii;
  letter_char : ascii;
  letter2 : option (Z * Z * ascii)
}.

Definition mk (name : string) (blank ds de ls le : Z) (dc lc : ascii)
  (l2 : option (Z * Z * ascii)) : mapping :=
  {| mapping_name := name; blank_id := blank;
     digit_start := ds; digit_end := de;
     letter_start := ls; letter_end := le;
     digit_char := dc; letter_char := lc; letter2 := l2 |}.

Definition mappings_config : list mapping :=
  [ mk "blank(0), 0-9(1-10), A-Z(11-33)" 0 1 10 11 33 "0" "A" None;
    mk "blank(0), A-Z(1-26), 0-9(27-33)" 0 27 33 1 26 "0" "A" None;
    mk "blank(33), 0-9(0-9), A-Z(10-32)" 33 0 9 10 32 "0" "A" None;
    mk "blank(33), A-Z(0-25), 0-9(26-32)" 33 26 32 0 25 "0" "A" None;
    mk "blank(0), 0-9(1-10), a-z(11-33)" 0 1 10 11 33 "0" "a" None;
    mk "blank(0), a-z(1-26), 0-9(27-33)" 0 27 33 1 26 "0" "a" None;
    mk "blank(0), 0-9(1-10), A-Z(11-26), a-z(27-33)" 0 1 10 11 26 "0" "A"
       (Some (27, 33, "a"%char)) ]%Z.

Definition in_digits (m : mapping) (idx : Z) : bool :=
  (digit_start m <=? idx) && (idx <=? digit_end m).

Definition in_letters (m : mapping) (idx : Z) : bool :=
  (letter_start m <=? idx) && (idx <=? letter_end m).

(** [letter2_start and letter2_start <= idx <= letter2_end]: [None] and 0
    are both false as a condition. *)
Definition in_letters2 (m : mapping) (idx : Z) : bool :=
  match letter2 m with
  | Some (s, e, _) => negb (s =? 0) && ((s <=? idx) && (idx <=? e))
  | None => false
  end.

(** The [if / elif / elif] that appends a character for [idx]. *)
Definition emit (m : mapping) (idx : Z) : string :=
  if in_digits m idx then chr (ord (digit_char m) + idx - digit_start m)
  else if in_letters m idx then chr (ord (letter_char m) + idx - letter_start m)
  else if in_letters2 m idx then
    match letter2 m with
    | Some (s, _, c) => chr (ord c + idx - s)
    | None => ""
    end
  else "".

(** The argmax loop: [prev_idx] starts at -1. *)
Fixpoint collapse (m : mapping) (prev_idx : Z) (char_indices : list Z) : string :=
  match char_indices with
  | [] => ""
  | idx :: rest =>
      if idx =? blank_id m then collapse m (-1) rest
      else if idx =? prev_idx then collapse m prev_idx rest
      else (emit m idx ++ collapse m idx rest)%string
  end.

Definition greedy (m : mapping) (char_indices : list Z) : string :=
  collapse m (-1) char_indices.

(** The choice between the two best indices of a time step. *)
Definition choose_top2 (m : mapping) (idx1 idx2 : Z) : Z :=
  if in_digits m idx2 &&
     (in_letters m idx1 || in_letters2 m idx1 || (idx1 =? blank_id m))
  then idx2 else idx1.

End Ctc.

(** *** Choosing among the CRNN results *)

Module Select.

Local Open Scope nat_scope.

(** First loop: the first result equal to [expected_text]; [""] when there
    is none. *)
Fixpoint find_exact (expected_text : string) (results : list (string * string)) : string :=
  match results with
  | [] => ""
  | (_, text) :: rest =>
      if (text =? expected_text)%string then text else find_exact expected_text rest
  end.

(** Body of the second loop: prefer all-digit results of four characters
    or more, a longer one replacing a shorter one. *)
Definition prefer_digits (best_text : string) (r : string * string) : string :=
  let text := snd r in
  if nonempty text && isdigit text && (4 <=? String.length text) then
    if negb (nonempty best_text) ||
       (negb (isdigit best_text) || (String.length best_text <? String.length text))
    then text else best_text
  else best_text.

(** [expected_text] is [None] or a [str]; both [None] and [""] are false
    as a condition. *)
Definition select (expected_text : option string) (results : list (string * string))
  : result string :=
  let best_text :=
    match expected_text with
    | Some e => if nonempty e then find_exact e results else ""
    | None => ""
    end in
  let best_text :=
    if negb (nonempty best_text) then fold_left prefer_digits results best_text
    else best_text in
  if negb (nonempty best_text) then
    match results with
    | [] => Raise IndexError
    | (_, text) :: _ => Ok text
    end
  else Ok best_text.

End Select.

(** ** Character-set variants and their scoring *)

Module Score.

Local Open Scope nat_scope.

(** [for idx in char_indices: if idx < len(cs): text += cs[idx]] *)
Fixpoint decode_with (cs : string) (char_indices : list nat) : result string :=
  match char_indices with
  | [] => Ok ""
  | idx :: rest =>
      c <- (if idx <? String.length cs then str_at cs idx else Ok "") ;;
      text <- decode_with cs rest ;;
      Ok (c ++ text)%string
  end.

(** Ten points for every position, over the shorter length, where the two
    strings agree. *)
Fixpoint position_score (variant_text expected_text : string) : Z :=
  match variant_text, expected_text with
  | String a v', String b e' =>
      ((if Ascii.eqb a b then 10 else 0) + position_score v' e')%Z
  | _, _ => 0%Z
  end.

Definition match_score (variant_text expected_text : string) : Z :=
  if (variant_text =? expected_text)%string then 1000%Z
  else
    (position_score variant_text expected_text +
     (if (String.length variant_text =? String.length expected_text)%nat
      then 5 else 0))%Z.

(** The update [if match_score > best_match_score], run over the decoded
    texts in order. *)
Fixpoint pick_best (expected_text : string) (texts : list string)
  (best_text : string) (best_match_score : Z) : string * Z :=
  match texts with
  | [] => (best_text, best_match_score)
  | variant_text :: rest =>
      let score := match_score variant_text expected_text in
      if (best_match_score <? score)%Z
      then pick_best expected_text rest variant_text score
      else pick_best expected_text rest best_text best_match_score
  end.

(** The scorer as a whole: [best_text = ""], [best_match_score = -1]. *)
Definition best (expected_text : string) (texts : list string) : string :=
  fst (pick_best expected_text texts "" (-1)%Z).

Fixpoint decode_all (variants : list (string * string)) (char_indices : list nat)
  : result (list string) :=
  match variants with
  | [] => Ok []
  | (_, cs) :: rest =>
      t <- decode_with cs char_indices ;;
      ts <- decode_all rest char_indices ;;
      Ok (t :: ts)
  end.

(** [d.get(k, default)] *)
Definition dict_get_default (d : list (string * string)) (k default : string) : string :=
  match dict_get d k with
  | Some v => v
  | None => default
  end.

Definition charset_variants (char_set : string) : list (string * string) :=
  if String.length char_set =? 63 then
    [ ("current_63", dict_get_default CHAR_SETS "63"
         "abcdefghijklmnopqrstuvwxyzABCDEFGHIJKLMNOPQRSTUVWXYZ0123456789$");
      ("digits_first", dict_get_default CHAR_SETS "63_digits_first"
         "0123456789abcdefghijklmnopqrstuvwxyzABCDEFGHIJKLMNOPQRSTUVWXYZ$");
      ("uppercase_first",
         "ABCDEFGHIJKLMNOPQRSTUVWXYZabcdefghijklmnopqrstuvwxyz0123456789$");
      ("digits_last",
         "abcdefghijklmnopqrstuvwxyzABCDEFGHIJKLMNOPQRSTUVWXYZ0123456789$") ]
  else if String.length char_set =? 37 then
    [ ("current", char_set);
      ("digits_first_lowercase", dict_get_default CHAR_SETS "37_lowercase_digits_first"
         "0123456789abcdefghijklmnopqrstuvwxyz$");
      ("digits_first_uppercase", dict_get_default CHAR_SETS "37_uppercase_digits_first"
         "0123456789ABCDEFGHIJKLMNOPQRSTUVWXYZ$");
      ("uppercase_first", dict_get_default CHAR_SETS "37_uppercase"
         "ABCDEFGHIJKLMNOPQRSTUVWXYZ0123456789$");
      ("lowercase_first", dict_get_default CHAR_SETS "37_lowercase"
         "abcdefghijklmnopqrstuvwxyz0123456789$") ]
  else [ ("current", char_set) ].

(** The last part of [postprocess_output]: the charset is known, the
    indices are decoded, through the variants when a label is given. *)
Definition decode_indices (char_set : string) (expected_text : option string)
  (char_indices : list nat) : result string :=
  let standard := decode_with char_set char_indices in
  match expected_text with
  | Some e =>
      if nonempty e &&
         ((String.length char_set =? 63) || (String.length char_set =? 37))
      then
        texts <- decode_all (charset_variants char_set) char_indices ;;
        let '(best_text, best_match_score) := pick_best e texts "" (-1)%Z in
        if (0 <=? best_match_score)%Z then Ok best_text else standard
      else standard
  | None => standard
  end.

End Score.

(** ** Local variables that may be read before they are bound *)

Inductive pyvar (A : Type) : Type :=
| Unbound
| Bound (a : A).

Arguments Unbound {A}.
Arguments Bound {A} a.

Definition read {A : Type} (v : pyvar A) : result A :=
  match v with
  | Unbound => Raise UnboundLocalError
  | Bound a => Ok a
  end.

(** Truth value of [seq_len], which holds [None] or an [int]. *)
Definition truthy (seq_len : option nat) : bool :=
  match seq_len with
  | Some n => negb (n =? 0)%nat
  | None => false
  end.

(** ** Inference of a configuration from the number of elements *)

Module Infer.

Local Open Scope nat_scope.

(** Inner loop [for test_key, test_set in self.CHAR_SETS.items()], up to
    its [break]. *)
Fixpoint find_char_set (total_size test_seq : nat) (sets : list (string * string))
  : option (string * string) :=
  match sets with
  | [] => None
  | (test_key, test_set) :: rest =>
      if total_size =? test_seq * String.length test_set then Some (test_key, test_set)
      else find_char_set total_size test_seq rest
  end.

(** Outer loop [for test_seq in [4, 5, 6, 7, 8]], closed by
    [if seq_len: break].  The state is the binding of [seq_len] and the
    last match [(test_seq, test_key, test_set)]; the other locals the loop
    assigns are functions of the match. *)
Fixpoint loop (total_size : nat) (test_seqs : list nat)
  (seq_len : pyvar (option nat)) (found : option (nat * (string * string)))
  : result (pyvar (option nat) * option (nat * (string * string))) :=
  match test_seqs with
  | [] => Ok (seq_len, found)
  | test_seq :: rest =>
      let st :=
        match find_char_set total_size test_seq CHAR_SETS with
        | Some ks => (Bound (Some test_seq), Some (test_seq, ks))
        | None => (seq_len, found)
        end in
      v <- read (fst st) ;;
      if truthy v then Ok st else loop total_size rest (fst st) (snd st)
  end.

Definition test_seqs : list nat := [4; 5; 6; 7; 8].

(** [for seq_len in [4, 5, 6, 7, 8, 9, 10]]: the first length that divides
    the size. *)
Fixpoint first_divisor (total_size : nat) (seq_lens : list nat) : option (nat * nat) :=
  match seq_lens with
  | [] => None
  | seq_len :: rest =>
      let num_classes := total_size / seq_len in
      if (0 <? num_classes) && (total_size =? seq_len * num_classes)
      then Some (seq_len, num_classes)
      else first_divisor total_size rest
  end.

Definition fallback_seq_lens : list nat := [4; 5; 6; 7; 8; 9; 10].

End Infer.

(** ** Arrays of scores and [postprocess_output] *)

(** What a path of the function hands on: a finished text ([return text])
    or the indices still to decode. *)
Inductive flow : Type :=
| Return (text : string)
| Continue (char_indices : list nat).

Fixpoint mapM {A B : Type} (f : A -> result B) (l : list A) : result (list B) :=
  match l with
  | [] => Ok []
  | a :: l' => b <- f a ;; bs <- mapM f l' ;; Ok (b :: bs)
  end.

(** [l[start:end]] *)
Definition slice {A : Type} (l : list A) (start stop : nat) : list A :=
  firstn (stop - start) (skipn start l).

(** The rows of [l.reshape(n_rows, n_cols)]. *)
Fixpoint reshape_rows {A : Type} (n_rows n_cols : nat) (l : list A) : list (list A) :=
  match n_rows with
  | O => []
  | S n => firstn n_cols l :: reshape_rows n n_cols (skipn n_cols l)
  end.

Section Scores.

Local Open Scope nat_scope.

(** A score (a float of the model output), its order, its zero. *)
Context {score : Type}.
Variable score_ltb : score -> score -> bool.
Variable score_zero : score.

(** [exp(r - max(r)) / sum(exp(r - max(r)))] on one row. *)
Variable softmax : list score -> list score.

(** The integer a score is, when it is a non-negative whole number. *)
Variable score_index : score -> option nat.

Record ndarray : Type := {
  shape : list nat;
  flat : list score
}.

Definition size_of (shp : list nat) : nat := fold_right Nat.mul 1 shp.

(** The shape describes the elements. *)
Definition well_formed (a : ndarray) : Prop :=
  List.length (flat a) = size_of (shape a).

(** [np.min] *)
Definition np_min (l : list score) : result score :=
  match l with
  | [] => Raise ValueError
  | x :: rest =>
      Ok (fold_left (fun m y => if score_ltb y m then y else m) rest x)
  end.

(** [np.argmax] of one row: the first index of a largest element. *)
Fixpoint argmax_from (best_i : nat) (best : score) (i : nat) (l : list score) : nat :=
  match l with
  | [] => best_i
  | x :: rest =>
      if score_ltb best x then argmax_from i x (S i) rest
      else argmax_from best_i best (S i) rest
  end.

Definition np_argmax (l : list score) : result nat :=
  match l with
  | [] => Raise ValueError
  | x :: rest => Ok (argmax_from 0 x 1 rest)
  end.

(** [np.argmax(rows, axis=1)] *)
Definition argmax_rows (rows : list (list score)) : result (list nat) :=
  mapM np_argmax rows.

(** [np.argsort] of one row.  numpy sorts by increasing score and leaves
    the order among equal scores to its sorting routine; here equal scores
    keep the order of their indices (a stable insertion sort).  On a row
    where one of the two largest scores is tied with another score,
    [top2] below may therefore name another pair than numpy does. *)
Fixpoint insert_sorted (x : score * nat) (l : list (score * nat)) : list (score * nat) :=
  match l with
  | [] => [x]
  | y :: rest =>
      if score_ltb (fst x) (fst y) then x :: y :: rest
      else y :: insert_sorted x rest
  end.

Definition np_argsort (row : list score) : list nat :=
  map snd
    (fold_left (fun acc x => insert_sorted x acc)
       (combine row (seq 0 (List.length row))) []).

(** [top2 = np.argsort(row)[-2:][::-1]; idx1, idx2 = top2[0], top2[1]] *)
Definition top2 (row : list score) : result (Z * Z) :=
  match rev (np_argsort row) with
  | i1 :: i2 :: _ => Ok (Z.of_nat i1, Z.of_nat i2)
  | _ => Raise IndexError
  end.

(** Softmax of a row; [np.max] of an empty row raises. *)
Definition softmax_row (row : list score) : result (list score) :=
  match row with
  | [] => Raise ValueError
  | _ => Ok (softmax row)
  end.

Definition softmax_if (logits : bool) (rows : list (list score))
  : result (list (list score)) :=
  if logits then mapM softmax_row rows else Ok rows.

(** [l.reshape(n_rows, n_cols)], which checks the size. *)
Definition np_reshape (l : list score) (n_rows n_cols : nat) : result (list (list score)) :=
  if List.length l =? n_rows * n_cols then Ok (reshape_rows n_rows n_cols l)
  else Raise ValueError.

(** *** Tokenizer path: [seq_len_config == "special"], three dimensions

    The caller has checked the number of dimensions. *)

Definition tokenizer_path (logits : bool) (output : ndarray) (model_filename : string)
  : result string :=
  match shape output with
  | [_; d1; d2] =>
      reshaped <- softmax_if logits (reshape_rows d1 d2 (flat output)) ;;
      char_indices <- argmax_rows reshaped ;;
      Tokenizer.decode (contains "captcha.onnx" (lower model_filename))
        (map Z.of_nat char_indices)
  | _ => Raise TypeError
  end.

(** *** CRNN path: ["crnn"] in the file name, three dimensions *)

(** The rows of [reshaped]: [output[:, 0, :]] when there are more time
    steps than batch entries, [output[0]] when the batch axis has one
    entry.  Otherwise [reshaped] keeps three dimensions and the loops call
    [int] on a row of indices, which numpy refuses for a row of two
    indices or more ([TypeError]); for a row of one index, where numpy
    only deprecates the call, the same outcome is taken here. *)
Definition crnn_rows (output : ndarray) : result (list (list score)) :=
  match shape output with
  | [d0; d1; d2] =>
      if d1 <? d0 then Ok (map (firstn d2) (reshape_rows d0 (d1 * d2) (flat output)))
      else if d1 =? 1 then Ok (reshape_rows d1 d2 (flat output))
      else Raise TypeError
  | _ => Raise TypeError
  end.

(** The top-2 loop of one mapping. *)
Fixpoint collapse_top2 (m : Ctc.mapping) (prev_idx : Z) (reshaped : list (list score))
  : result string :=
  match reshaped with
  | [] => Ok ""
  | row :: rest =>
      p <- top2 row ;;
      let idx := Ctc.choose_top2 m (fst p) (snd p) in
      if (idx =? Ctc.blank_id m)%Z then collapse_top2 m (-1)%Z rest
      else if (idx =? prev_idx)%Z then collapse_top2 m prev_idx rest
      else
        text <- collapse_top2 m idx rest ;;
        Ok (Ctc.emit m idx ++ text)%string
  end.

(** [results]: for every mapping its argmax text, then its top-2 text. *)
Fixpoint crnn_results (ms : list Ctc.mapping) (char_indices : list Z)
  (reshaped : list (list score)) : result (list (string * string)) :=
  match ms with
  | [] => Ok []
  | m :: ms' =>
      let text := Ctc.greedy m char_indices in
      text_top2 <- collapse_top2 m (-1)%Z reshaped ;;
      rest <- crnn_results ms' char_indices reshaped ;;
      Ok ((Ctc.mapping_name m, text)
            :: ((Ctc.mapping_name m ++ " (top-2)")%string, text_top2) :: rest)
  end.

Definition crnn_path (logits : bool) (output : ndarray) (expected_text : option string)
  : result string :=
  rows <- crnn_rows output ;;
  reshaped <- softmax_if logits rows ;;
  char_indices <- argmax_rows reshaped ;;
  results <- crnn_results Ctc.mappings_config (map Z.of_nat char_indices) reshaped ;;
  Select.select expected_text results.

(** *** Flat segmented path: v1..v8 models, one row *)

(** The loop [for idx in range(seq_len)]. *)
Fixpoint flat_segments (logits : bool) (char_set : string) (cls_dim : nat)
  (flat_output : list score) (idxs : list nat) : result string :=
  match idxs with
  | [] => Ok ""
  | idx :: rest =>
      let start := cls_dim * idx in
      let stop := cls_dim * (idx + 1) in
      let segment := slice flat_output start stop in
      char_idx <- (if logits then
                     segment_probs <- softmax_row segment ;; np_argmax segment_probs
                   else np_argmax segment) ;;
      c <- (if char_idx <? cls_dim then str_at char_set char_idx else Ok "") ;;
      text <- flat_segments logits char_set cls_dim flat_output rest ;;
      Ok (c ++ text)%string
  end.

(** [seq_len_config and char_set_key], for an entry of [MODEL_CONFIGS]. *)
Definition known_pair (cfg : model_config) : option (nat * string) :=
  match cfg with
  | Known seq_len char_set_key =>
      if negb (seq_len =? 0) && nonempty char_set_key
      then Some (seq_len, char_set_key) else None
  | _ => None
  end.

(** With the marker pair the test [seq_len_config and char_set_key] holds
    as well, and [CHAR_SETS["captcha.onnx"]] is looked up. *)
Definition special_lookup {A : Type} : result A :=
  _ <- dict_item CHAR_SETS "captcha.onnx" ;; Raise TypeError.

(** The block under [if is_v1_v8_model]; [None] when it falls through. *)
Definition v1_v8_block (logits : bool) (flat_output : list score) (model_filename : string)
  : result (option string) :=
  if is_v1_v8_model model_filename then
    match get_model_config model_filename with
    | Special => special_lookup
    | cfg =>
        match known_pair cfg with
        | Some (seq_len, char_set_key) =>
            char_set <- dict_item CHAR_SETS char_set_key ;;
            text <- flat_segments logits char_set (String.length char_set)
                      flat_output (seq 0 seq_len) ;;
            Ok (Some text)
        | None => Ok None
        end
    end
  else Ok None.

(** The specification side of the loop: the argmax of each segment. *)
Definition segment_argmax (logits : bool) (cls_dim : nat) (flat_output : list score)
  (idx : nat) : result nat :=
  let segment := slice flat_output (cls_dim * idx) (cls_dim * (idx + 1)) in
  if logits then probs <- softmax_row segment ;; np_argmax probs
  else np_argmax segment.

Definition segment_argmaxes (logits : bool) (cls_dim seq_len : nat)
  (flat_output : list score) : result (list nat) :=
  mapM (segment_argmax logits cls_dim flat_output) (seq 0 seq_len).

(** *** Generic reshaping *)

(** The loop over [[4 .. 10]] with its reshape and argmax; [None] leaves
    [char_indices] as it was. *)
Definition reshape_fallback (l : list score) : result (option (list nat)) :=
  match Infer.first_divisor (List.length l) Infer.fallback_seq_lens with
  | Some (seq_len, num_classes) =>
      char_indices <- argmax_rows (reshape_rows seq_len num_classes l) ;;
      Ok (Some char_indices)
  | None => Ok None
  end.

(** [np.array([np.argmax(l)])] *)
Definition single_argmax (l : list score) : result (list nat) :=
  i <- np_argmax l ;; Ok [i].

(** One row of logits: the sequence length and the number of classes come
    from the configuration or from the size. *)
Definition single_row_logits (flat_output : list score) (model_filename : string)
  : result (list nat) :=
  let total_size := List.length flat_output in
  dims <-
    match get_model_config model_filename with
    | Special => Raise UnboundLocalError  (* pass; reshape then reads seq_len *)
    | cfg =>
        match known_pair cfg with
        | Some (seq_len, char_set_key) =>
            char_set <- dict_item CHAR_SETS char_set_key ;;
            Ok (seq_len, String.length char_set)
        | None =>
            st <- Infer.loop total_size Infer.test_seqs Unbound None ;;
            v <- read (fst st) ;;
            if negb (truthy v) then Ok (6, 63)
            else
              match v, snd st with
              | Some seq_len, Some (_, (_, test_set)) =>
                  Ok (seq_len, String.length test_set)
              | _, _ => Raise UnboundLocalError
              end
        end
    end ;;
  reshaped <- np_reshape flat_output (fst dims) (snd dims) ;;
  probs <- mapM softmax_row reshaped ;;
  argmax_rows probs.

(** One row of probabilities; [None] when [char_indices] is still unset. *)
Definition single_row_probs (flat_output : list score) (model_filename : string)
  : result (option (list nat)) :=
  let total_size := List.length flat_output in
  match get_model_config model_filename with
  | Special => special_lookup
  | cfg =>
      match known_pair cfg with
      | Some (seq_len, char_set_key) =>
          char_set <- dict_item CHAR_SETS char_set_key ;;
          reshaped <- np_reshape flat_output seq_len (String.length char_set) ;;
          char_indices <- argmax_rows reshaped ;;
          Ok (Some char_indices)
      | None =>
          st <- Infer.loop total_size Infer.test_seqs Unbound None ;;
          inferred <-
            match snd st with
            | Some (seq_len, (_, test_set)) =>
                reshaped <- np_reshape flat_output seq_len (String.length test_set) ;;
                char_indices <- argmax_rows reshaped ;;
                Ok (Some char_indices)
            | None => Ok None
            end ;;
          v <- read (fst st) ;;
          if negb (truthy v) then
            fb <- reshape_fallback flat_output ;;
            Ok (match fb with Some ci => Some ci | None => inferred end)
          else Ok inferred
      end
  end.

(** [if char_indices is None] of the one-row case: scores that are whole
    non-negative numbers are the indices themselves. *)
Definition indices_or_argmax (flat_output : list score) : result (list nat) :=
  if forallb (fun x => match score_index x with Some _ => true | None => false end)
       flat_output
  then Ok (flat_map (fun x => match score_index x with Some n => [n] | None => [] end)
             flat_output)
  else single_argmax flat_output.

Definition single_row_path (logits : bool) (flat_output : list score)
  (model_filename : string) : result flow :=
  early <- v1_v8_block logits flat_output model_filename ;;
  match early with
  | Some text => Ok (Return text)
  | None =>
      char_indices <-
        (if logits then
           ci <- single_row_logits flat_output model_filename ;; Ok (Some ci)
         else single_row_probs flat_output model_filename) ;;
      match char_indices with
      | Some ci => Ok (Continue ci)
      | None => ci <- indices_or_argmax flat_output ;; Ok (Continue ci)
      end
  end.

(** The dispatch on the number of dimensions that computes
    [char_indices]. *)
Definition generic_indices (logits : bool) (output : ndarray) (model_filename : string)
  : result flow :=
  match shape output with
  | [_; d1; d2] =>
      reshaped <- softmax_if logits (reshape_rows d1 d2 (flat output)) ;;
      char_indices <- argmax_rows reshaped ;;
      Ok (Continue char_indices)
  | [d0; d1] =>
      if d0 =? 1 then single_row_path logits (flat output) model_filename
      else
        char_indices <- argmax_rows (reshape_rows d0 d1 (flat output)) ;;
        Ok (Continue char_indices)
  | _ =>
      (* one dimension, or none, or more than three *)
      fb <- reshape_fallback (flat output) ;;
      match fb with
      | Some ci => Ok (Continue ci)
      | None => ci <- single_argmax (flat output) ;; Ok (Continue ci)
      end
  end.

(** *** From indices to text *)

(** The character set: the configured one, or one inferred from the size,
    or the default ["63"]. *)
Definition resolve_char_set (total_size : nat) (model_filename : string) : result string :=
  let cfg := get_model_config model_filename in
  let char_set_key :=
    match cfg with
    | Special => Some "63"
    | Known _ k => Some k
    | NoConfig => None
    end in
  let seq_len :=
    match cfg with
    | Known n _ => Some n
    | _ => None
    end in
  match match char_set_key with
        | Some k => if nonempty k then dict_get CHAR_SETS k else None
        | None => None
        end with
  | Some char_set => Ok char_set
  | None =>
      st <- Infer.loop total_size Infer.test_seqs (Bound seq_len) None ;;
      v <- read (fst st) ;;
      if negb (truthy v) then dict_item CHAR_SETS "63"
      else
        match snd st with
        | Some (_, (_, test_char_set)) => Ok test_char_set
        | None => Raise UnboundLocalError
        end
  end.

Definition postprocess_output (output : ndarray) (model_filename : string)
  (expected_text : option string) : result string :=
  let output_shape := shape output in
  let flat_output := flat output in
  min_val <- np_min flat_output ;;
  let logits := score_ltb min_val score_zero in
  let rank := List.length output_shape in
  if match get_model_config model_filename with Special => true | _ => false end
     && (rank =? 3)
  then tokenizer_path logits output model_filename
  else if contains "crnn" (lower model_filename) && (rank =? 3)
  then crnn_path logits output expected_text
  else
    fl <- generic_indices logits output model_filename ;;
    match fl with
    | Return text => Ok text
    | Continue char_indices =>
        (* max_idx = int(np.max(char_indices)) *)
        _ <- match char_indices with
             | [] => Raise ValueError
             | _ => Ok tt
             end ;;
        char_set <- resolve_char_set (List.length flat_output) model_filename ;;
        Score.decode_indices char_set expected_text char_indices
    end.

End Scores.

Arguments ndarray : clear implicits.

(** ** Integer scores, for running the decoder on concrete arrays *)

Module ZScores.

(** The order-preserving first step of the softmax: subtract the row
    maximum. *)
Definition softmax_shift (row : list Z) : list Z :=
  match row with
  | [] => []
  | x :: rest => let m := fold_left Z.max rest x in map (fun y => (y - m)%Z) row
  end.

Definition index_of (x : Z) : option nat :=
  if (0 <=? x)%Z then Some (Z.to_nat x) else None.

Definition array (shp : list nat) (elements : list Z) : ndarray Z :=
  {| shape := shp; flat := elements |}.

Definition decode (output : ndarray Z) (model_filename : string)
  (expected_text : option string) : result string :=
  postprocess_output Z.ltb 0%Z softmax_shift index_of output model_filename expected_text.

(** A row of [n] scores: 2 at [i1], 1 at [i2], 0 elsewhere. *)
Definition peaks (n i1 i2 : nat) : list Z :=
  map (fun k => if (k =? i1)%nat then 2 else if (k =? i2)%nat then 1 else 0)%Z (seq 0 n).

End ZScores.

(** ** Definitions of the specification side

    What the statements below compare the code with. *)

(** [''.join(l)] *)
Definition join (l : list string) : string := fold_right String.append "" l.

(** A predicate on all the characters of a string. *)
Fixpoint all_chars (P : ascii -> bool) (s : string) : bool :=
  match s with
  | EmptyString => true
  | String c s' => P c && all_chars P s'
  end.

(** [c * n] for a one-character string. *)
Fixpoint str_repeat (c : ascii) (n : nat) : string :=
  match n with
  | O => EmptyString
  | S n' => String c (str_repeat c n')
  end.

Module TokenizerSpec.

Import Tokenizer.
Local Open Scope Z_scope.

(** The indices before the first [eos_id], and among them those that are
    no special token. *)
Fixpoint before_eos (l : list Z) : list Z :=
  match l with
  | [] => []
  | idx :: rest => if idx =? eos_id then [] else idx :: before_eos rest
  end.

Definition kept (captcha : bool) (l : list Z) : list Z :=
  filter (fun idx => negb (is_special (ids captcha) idx)) (before_eos l).

(** The text one index contributes. *)
Definition symbol (captcha : bool) (idx : Z) : string :=
  match emit captcha idx with
  | Ok s => s
  | Raise _ => ""
  end.

Definition no_bracket (c : ascii) : bool := negb (Ascii.eqb c "["%char).

End TokenizerSpec.

Module CtcSpec.

Import Ctc.
Local Open Scope Z_scope.

(** The ranges of a mapping as propositions. *)
Definition digit_range (m : mapping) (idx : Z) : Prop :=
  digit_start m <= idx <= digit_end m.

Definition letter_range (m : mapping) (idx : Z) : Prop :=
  letter_start m <= idx <= letter_end m \/
  exists s e c, letter2 m = Some (s, e, c) /\ s <> 0 /\ s <= idx <= e.

End CtcSpec.

Module ScoreSpec.

(** The positions below both lengths where the two strings hold the same
    character. *)
Definition agree (h e : string) (i : nat) : bool :=
  match String.get i h, String.get i e with
  | Some a, Some b => Ascii.eqb a b
  | _, _ => false
  end.

Definition matching_positions (h e : string) : nat :=
  List.length
    (filter (agree h e) (seq 0 (Nat.min (String.length h) (String.length e)))).

End ScoreSpec.

Module SelectSpec.


End SelectSpec.

(** The position of a character in a character set. *)
Fixpoint index_in (cs : string) (c : ascii) : option nat :=
  match cs with
  | EmptyString => None
  | String a cs' => if Ascii.eqb a c then Some 0%nat else option_map S (index_in cs' c)
  end.

(** Mapping a text back to indices. *)
Fixpoint encode (cs : string) (text : string) : option (list nat) :=
  match text with
  | EmptyString => Some []
  | String c text' =>
      match index_in cs c, encode cs text' with
      | Some i, Some idxs => Some (i :: idxs)
      | _, _ => None
      end
  end.

(** The characters at the given positions of a character set. *)
Fixpoint chars_at (cs : string) (idxs : list nat) : option string :=
  match idxs with
  | [] => Some ""
  | i :: rest =>
      match String.get i cs, chars_at cs rest with
      | Some c, Some text => Some (String c text)
      | _, _ => None
      end
  end.

(** Every character of the set is found at its own position. *)
Definition positions_unique (cs : string) : bool :=
  forallb (fun i => match String.get i cs with
                    | Some c => match index_in cs c with
                                | Some j => (j =? i)%nat
                                | None => false
                                end
                    | None => true
                    end)
          (seq 0 (String.length cs)).

(** ** The callers of [postprocess_output]

    [test_model_on_image] preprocesses the image, runs the inference and
    decodes its outputs, all under one [try]; [test_model] records the
    text of every image.  The image handling and the inference are
    outside this development: their outcome is the argument
    [inference]. *)

Section Callers.

Context {score : Type}.
Variable score_ltb : score -> score -> bool.
Variable score_zero : score.
Variable softmax : list score -> list score.
Variable score_index : score -> option nat.

(** [output = outputs[0]], the first statement of [postprocess_output]. *)
Definition first_output (outputs : list (ndarray score)) : result (ndarray score) :=
  match outputs with
  | [] => Raise IndexError
  | output :: _ => Ok output
  end.

(** [test_model_on_image]: [expected_text] is the stem of the image path,
    and [except Exception] turns every exception into [None]. *)
Definition test_model_on_image (inference : result (list (ndarray score)))
  (model_filename : string) (stem : string) : option string :=
  match (outputs <- inference ;;
         output <- first_output outputs ;;
         postprocess_output score_ltb score_zero softmax score_index
           output model_filename (Some stem)) with
  | Ok text => Some text
  | Raise _ => None
  end.

(** The ['text'] entry [test_model] appends for one image:
    [if recognized_text: ... else: ... 'text': None]. *)
Definition recorded_text (recognized_text : option string) : option string :=
  match recognized_text with
  | Some text => if nonempty text then Some text else None
  | None => None
  end.

End Callers.

(** ** The input the image is prepared for

    [test_model_on_image] reads the number of channels and the size from
    the declared shape of the model input, and [preprocess_image]
    replaces them for the models it knows by name.  The pixels are
    outside this development. *)

(** A dimension as the runtime reports it: an [int], or for a dynamic
    axis a name or [None]. *)
Inductive dim : Type :=
| DInt (n : Z)
| DName (name : string)
| DNone.

(** [d == n] *)
Definition dim_is (d : dim) (n : Z) : bool :=
  match d with
  | DInt m => (m =? n)%Z
  | _ => false
  end.

(** [int(d)]; the name of an axis is taken to be no integer literal. *)
Definition int_of_dim (d : dim) : result Z :=
  match d with
  | DInt n => Ok n
  | DName _ => Raise ValueError
  | DNone => Raise TypeError
  end.

Definition num_channels (input_shape : list dim) : result Z :=
  match input_shape with
  | _ :: d1 :: rest =>
      if dim_is d1 1 || dim_is d1 3 then int_of_dim d1
      else
        match rest with
        | [_; d3] => if dim_is d3 1 || dim_is d3 3 then int_of_dim d3 else Ok 1%Z
        | _ => Ok 1%Z
        end
  | _ => Ok 1%Z
  end.

(** [(width, height)] *)
Definition target_size (input_shape : list dim) : result (Z * Z) :=
  match input_shape with
  | _ :: d1 :: d2 :: d3 :: _ =>
      if dim_is d1 1 || dim_is d1 3 then
        width <- int_of_dim d3 ;; height <- int_of_dim d2 ;; Ok (width, height)
      else
        width <- int_of_dim d2 ;; height <- int_of_dim d1 ;; Ok (width, height)
  | _ => Ok (200, 50)%Z
  end.

(** The mode the image is converted to. *)
Inductive image_mode : Type :=
| L
| RGB.

(** What [preprocess_image] settles before it touches the pixels: the
    size of the resize, the number of channels, the mode, and whether
    the pixels are scaled to [-1, 1] rather than to [0, 1]. *)
Record image_settings : Type := {
  size : Z * Z;
  channels : Z;
  mode : image_mode;
  signed_range : bool
}.

Definition preprocess_settings (target : Z * Z) (n_channels : Z)
  (model_filename : string) : image_settings :=
  let is_captcha_onnx := contains "captcha.onnx" (lower model_filename) in
  if is_captcha_onnx then
    {| size := (128, 32)%Z; channels := 3%Z; mode := RGB; signed_range := true |}
  else if is_v1_v8_model model_filename then
    {| size := (200, 50)%Z; channels := 1%Z; mode := L; signed_range := false |}
  else
    {| size := target; channels := n_channels;
       mode := if (n_channels =? 1)%Z then L else RGB; signed_range := false |}.

(** From the declared input shape to the settings, in the order of the
    code. *)
Definition prepare (input_shape : list dim) (model_filename : string)
  : result image_settings :=
  n_channels <- num_channels input_shape ;;
  target <- target_size input_shape ;;
  Ok (preprocess_settings target n_channels model_filename).

(** ** Further definitions of the specification side *)

Module CtcTextbook.

Local Open Scope Z_scope.

(** Merging of adjacent repeats, [previous] being the element before. *)
Fixpoint dedup_from (previous : Z) (l : list Z) : list Z :=
  match l with
  | [] => []
  | x :: rest => if x =? previous then dedup_from previous rest
                 else x :: dedup_from x rest
  end.

Definition dedup (l : list Z) : list Z :=
  match l with
  | [] => []
  | x :: rest => x :: dedup_from x rest
  end.

(** The usual CTC reduction: merge the repeats, then drop the blanks. *)
Definition reduce (blank : Z) (l : list Z) : list Z :=
  filter (fun x => negb (x =? blank)) (dedup l).

End CtcTextbook.

(** The ids the tokenizer format gives a text: the position of each
    character in the charset, plus one. *)
Fixpoint token_ids_of (charset : string) (text : string) : option (list Z) :=
  match text with
  | EmptyString => Some []
  | String c text' =>
      match index_in charset c, token_ids_of charset text' with
      | Some i, Some ids => Some ((Z.of_nat i + 1)%Z :: ids)
      | _, _ => None
      end
  end.

(** ASCII letters and digits. *)
Definition is_alnum (c : ascii) : bool :=
  let n := N_of_ascii c in
  (((48 <=? n) && (n <=? 57)) || ((65 <=? n) && (n <=? 90)) ||
   ((97 <=? n) && (n <=? 122)))%N.

(** Printable ASCII other than the space. *)
Definition is_graphic (c : ascii) : bool :=
  let n := N_of_ascii c in ((33 <=? n) && (n <=? 126))%N.

(** Membership of a character in a string. *)
Fixpoint char_in (s : string) (c : ascii) : bool :=
  match s with
  | EmptyString => false
  | String a s' => Ascii.eqb a c || char_in s' c
  end.

(** A string in which no ["v"] is followed by a digit. *)
Definition tag_free (s : string) : Prop :=
  forall a b c, s = (a ++ String "v"%char (String c b))%string -> is_digit c = false.

(** A string that does not go on with a digit. *)
Definition no_digit_ahead (s : string) : Prop :=
  match s with
  | EmptyString => True
  | String c _ => is_digit c = false
  end.

(** The file names of the tokenizer format. *)
Definition special_name (model_lower : string) : bool :=
  (model_lower =? "model.onnx")%string || endswith model_lower "/model.onnx" ||
  (model_lower =? "captcha.onnx")%string || endswith model_lower "/captcha.onnx".

(** * Properties *)

(** ** The code on small inputs *)

Example get_model_config_v4 :
  get_model_config "captcha_model_v4.onnx" = Known 6 "37_lowercase".
Proof. reflexivity. Qed.

Example get_model_config_special :
  get_model_config "models/Captcha.ONNX" = Special.
Proof. reflexivity. Qed.

Example get_model_config_unknown :
  get_model_config "crnn_model.onnx" = NoConfig.
Proof. reflexivity. Qed.

Example tokenizer_decode_stops_at_eos :
  Tokenizer.decode true [15; 52; 0; 9; 9; 9]%Z = Ok "eP".
Proof. reflexivity. Qed.

Example tokenizer_decode_other_ascii :
  Tokenizer.decode false [1; 92; 64; 95; 96]%Z = Ok "0_~".
Proof. reflexivity. Qed.

Example ctc_greedy_merges :
  Ctc.greedy (nth 0 Ctc.mappings_config (Ctc.mk "" 0 0 0 0 0 "0" "A" None))
    [0; 1; 1; 0; 1; 5; 5; 11]%Z = "004A".
Proof. reflexivity. Qed.

Example score_prefers_positions :
  Score.best "AB13" ["AB12"; "A B1"] = "AB12".
Proof. reflexivity. Qed.

Example score_exact :
  Score.best "4213" ["4214"; "4213"] = "4213".
Proof. reflexivity. Qed.

Lemma softmax_shift_length (row : list Z) :
  List.length (ZScores.softmax_shift row) = List.length row.
Proof.
  destruct row as [|x rest]; [reflexivity|].
  unfold ZScores.softmax_shift. now rewrite length_map.
Qed.

(** ** Strings *)

Lemma get_in_range (s : string) (n : nat) :
  (n < String.length s)%nat -> exists c, String.get n s = Some c.
Proof.
  revert n. induction s as [|a s IH]; intros n Hn; simpl in *.
  - lia.
  - destruct n as [|n]; [now exists a|]. apply IH. lia.
Qed.

Lemma str_at_in_range (s : string) (n : nat) :
  (n < String.length s)%nat ->
  exists c, String.get n s = Some c /\ str_at s n = Ok (String c EmptyString).
Proof.
  intros Hn. destruct (get_in_range s n Hn) as [c Hc].
  exists c. split; [assumption|]. unfold str_at. now rewrite Hc.
Qed.

Lemma append_assoc (a b c : string) : ((a ++ b) ++ c)%string = (a ++ (b ++ c))%string.
Proof. induction a; simpl; congruence. Qed.

Lemma all_chars_append (P : ascii -> bool) (a b : string) :
  all_chars P (a ++ b) = all_chars P a && all_chars P b.
Proof. induction a; simpl; [reflexivity|]. rewrite IHa. now rewrite andb_assoc. Qed.

Lemma all_chars_get (P : ascii -> bool) (s : string) (n : nat) (c : ascii) :
  all_chars P s = true -> String.get n s = Some c -> P c = true.
Proof.
  revert n. induction s as [|a s IH]; intros n Hall Hget; simpl in *; [discriminate|].
  apply andb_true_iff in Hall as [Ha Hs].
  destruct n; [congruence|eauto].
Qed.

(** A text none of whose characters starts [needle] does not contain it. *)
Lemma contains_first_char (a : ascii) (needle text : string) :
  all_chars (fun c => negb (Ascii.eqb c a)) text = true ->
  contains (String a needle) text = false.
Proof.
  induction text as [|c text IH]; intros Hall; simpl in *; [reflexivity|].
  apply andb_true_iff in Hall as [Hc Hrest].
  rewrite (IH Hrest), orb_false_r.
  rewrite Ascii.eqb_sym in Hc.
  destruct (Ascii.ascii_dec a c) as [->|Hne].
  - rewrite Ascii.eqb_refl in Hc. discriminate.
  - reflexivity.
Qed.

(** ** Tokenizer decoding on index sequences *)

Module TokenizerFacts.

Import Tokenizer TokenizerSpec.
Local Open Scope Z_scope.

Lemma captcha_ids_values :
  unk_id captcha_ids = 63 /\ bos_id captcha_ids = 64 /\ pad_id captcha_ids = 65 /\
  charset_end = 62.
Proof. repeat split. Qed.

Lemma other_ids_values :
  unk_id other_ids = 92 /\ bos_id other_ids = 93 /\ pad_id other_ids = 94 /\
  charset other_ids = charset_digits_first /\ len charset_digits_first = 63.
Proof. repeat split. Qed.

Lemma is_special_values (captcha : bool) (idx : Z) :
  is_special (ids captcha) idx = true <->
  if captcha then idx = 63 \/ idx = 64 \/ idx = 65
  else idx = 92 \/ idx = 93 \/ idx = 94.
Proof.
  unfold is_special. destruct captcha; simpl ids.
  - destruct captcha_ids_values as (-> & -> & -> & _).
    rewrite !orb_true_iff, !Z.eqb_eq. tauto.
  - destruct other_ids_values as (-> & -> & -> & _).
    rewrite !orb_true_iff, !Z.eqb_eq. tauto.
Qed.

Lemma emit_special (captcha : bool) (idx : Z) :
  is_special (ids captcha) idx = true -> emit captcha idx = Ok "".
Proof.
  intros H. unfold emit. destruct captcha; simpl ids in H; now rewrite H.
Qed.

Lemma chr_no_bracket (code : Z) :
  0 <= code < 256 -> code <> 91 ->
  all_chars no_bracket (chr code) = true.
Proof.
  intros Hr Hne. unfold chr, no_bracket. simpl. rewrite andb_true_r.
  apply negb_true_iff. destruct (Ascii.eqb_spec (ascii_of_N (Z.to_N code)) "["%char) as [E|]; [|reflexivity].
  apply (f_equal N_of_ascii) in E.
  rewrite N_ascii_embedding in E by lia.
  change (N_of_ascii "[") with 91%N in E. lia.
Qed.

Lemma charset_at_no_bracket (cs : string) (n : nat) :
  all_chars no_bracket cs = true -> (n < String.length cs)%nat ->
  exists s, str_at cs n = Ok s /\ all_chars no_bracket s = true.
Proof.
  intros Hall Hn. destruct (str_at_in_range cs n Hn) as (c & Hget & ->).
  eexists. split; [reflexivity|]. simpl.
  now rewrite (all_chars_get _ _ _ _ Hall Hget).
Qed.

(** One step never raises, and never produces an opening bracket. *)
Lemma emit_ok (captcha : bool) (idx : Z) :
  exists s, emit captcha idx = Ok s /\ all_chars no_bracket s = true.
Proof.
  unfold emit. destruct captcha.
  - destruct (is_special captcha_ids idx); [now exists ""|].
    destruct ((charset_start <=? idx) && (idx <=? charset_end)) eqn:Hr.
    + apply andb_true_iff in Hr as [H1 H2].
      apply Z.leb_le in H1, H2. unfold charset_start in *.
      destruct captcha_ids_values as (_ & _ & _ & He). rewrite He in H2.
      apply charset_at_no_bracket; [reflexivity|].
      change (String.length (charset captcha_ids)) with 62%nat. lia.
    + destruct (pad_id captcha_ids <? idx); now exists "".
  - destruct (is_special other_ids idx); [now exists ""|].
    destruct other_ids_values as (_ & _ & _ & -> & ->).
    destruct ((1 <=? idx) && (idx <=? 63)) eqn:Hr.
    + apply andb_true_iff in Hr as [H1 H2]. apply Z.leb_le in H1, H2.
      apply charset_at_no_bracket; [reflexivity|].
      change (String.length charset_digits_first) with 63%nat. lia.
    + destruct (1 <=? charset_size); [|now exists ""].
      destruct ((32 <=? 32 + idx - 1) && (32 + idx - 1 <=? 126)) eqn:Ha; [|now exists ""].
      destruct (negb (32 + idx - 1 =? 32)); [|now exists ""].
      apply andb_true_iff in Ha as [H1 H2]. apply Z.leb_le in H1, H2.
      eexists. split; [reflexivity|].
      apply chr_no_bracket; [lia|].
      apply andb_false_iff in Hr as [Hr|Hr];
        [apply Z.leb_gt in Hr | apply Z.leb_gt in Hr]; lia.
Qed.

Lemma emit_symbol (captcha : bool) (idx : Z) :
  emit captcha idx = Ok (symbol captcha idx).
Proof.
  unfold symbol. destruct (emit_ok captcha idx) as (s & -> & _). reflexivity.
Qed.

Lemma decode_cons (captcha : bool) (idx : Z) (rest : list Z) :
  idx <> eos_id ->
  decode captcha (idx :: rest) =
  text <- decode captcha rest ;; Ok (symbol captcha idx ++ text)%string.
Proof.
  intros Hne. simpl. apply Z.eqb_neq in Hne. rewrite Hne.
  now rewrite emit_symbol.
Qed.

(** The loop computes the concatenation of the symbols of the kept
    indices. *)
Lemma decode_scan (captcha : bool) (l : list Z) :
  decode captcha l = Ok (join (map (symbol captcha) (kept captcha l))).
Proof.
  induction l as [|idx rest IH]; [reflexivity|].
  destruct (Z.eq_dec idx eos_id) as [->|Hne].
  - reflexivity.
  - rewrite decode_cons by assumption. rewrite IH. simpl.
    unfold kept. simpl before_eos.
    apply Z.eqb_neq in Hne. rewrite Hne. simpl filter.
    destruct (is_special (ids captcha) idx) eqn:Hs; simpl.
    + unfold symbol at 1. now rewrite (emit_special _ _ Hs).
    + reflexivity.
Qed.

Lemma decode_no_bracket (captcha : bool) (l : list Z) :
  exists text, decode captcha l = Ok text /\ all_chars no_bracket text = true.
Proof.
  induction l as [|idx rest (text & IH & Hall)]; [now exists ""|].
  destruct (Z.eq_dec idx eos_id) as [->|Hne]; [now exists ""|].
  rewrite decode_cons by assumption. rewrite IH. simpl.
  eexists. split; [reflexivity|].
  rewrite all_chars_append, Hall, andb_true_r.
  unfold symbol. destruct (emit_ok captcha idx) as (s & -> & Hs). exact Hs.
Qed.

(** Replacing a suffix by one that decodes alike, from any position. *)
Lemma decode_app_congr (captcha : bool) (pre xs ys : list Z) :
  decode captcha xs = decode captcha ys ->
  decode captcha (pre ++ xs) = decode captcha (pre ++ ys).
Proof.
  intros H. induction pre as [|idx pre IH]; [exact H|].
  simpl. destruct (idx =? eos_id); [reflexivity|]. now rewrite IH.
Qed.

Lemma decode_stops_at_eos (captcha : bool) (pre post : list Z) :
  decode captcha (pre ++ eos_id :: post) = decode captcha pre.
Proof.
  rewrite <- (app_nil_r pre) at 2. apply decode_app_congr. reflexivity.
Qed.

Lemma bind_ret_empty (r : result string) :
  (text <- r ;; Ok ("" ++ text)%string) = r.
Proof. now destruct r. Qed.

(** An index that appends nothing can be left out of the sequence. *)
Lemma decode_drop_silent (captcha : bool) (pre post : list Z) (idx : Z) :
  idx <> eos_id -> emit captcha idx = Ok "" ->
  decode captcha (pre ++ idx :: post) = decode captcha (pre ++ post).
Proof.
  intros Hne He. apply decode_app_congr. simpl.
  apply Z.eqb_neq in Hne. rewrite Hne, He. simpl. apply bind_ret_empty.
Qed.

End TokenizerFacts.

(** ** Rows, argmax and the error monad *)

Lemma mapM_ok {A B : Type} (f : A -> result B) (l : list A) :
  Forall (fun a => exists b, f a = Ok b) l ->
  exists bs, mapM f l = Ok bs /\ Forall2 (fun a b => f a = Ok b) l bs.
Proof.
  induction 1 as [|a l [b Hb] _ (bs & IH & Hall)].
  - exists []. split; [reflexivity|constructor].
  - exists (b :: bs). simpl. rewrite Hb. simpl. rewrite IH. simpl.
    split; [reflexivity|now constructor].
Qed.

Lemma reshape_rows_length {A : Type} (n_rows n_cols : nat) (l : list A) :
  List.length (reshape_rows n_rows n_cols l) = n_rows.
Proof.
  revert l. induction n_rows as [|n IH]; intros l; simpl; [reflexivity|].
  now rewrite IH.
Qed.

Lemma reshape_rows_width {A : Type} (n_rows n_cols : nat) (l : list A) :
  (n_rows * n_cols <= List.length l)%nat ->
  Forall (fun row => List.length row = n_cols) (reshape_rows n_rows n_cols l).
Proof.
  revert l. induction n_rows as [|n IH]; intros l Hl; simpl; constructor.
  - rewrite length_firstn. simpl in Hl. lia.
  - apply IH. rewrite length_skipn. simpl in Hl. lia.
Qed.

Section ArrayFacts.

Context {score : Type}.
Variable score_ltb : score -> score -> bool.
Variable softmax : list score -> list score.
Hypothesis softmax_length : forall row, List.length (softmax row) = List.length row.

Lemma np_min_ok (l : list score) :
  l <> [] -> exists m, np_min score_ltb l = Ok m.
Proof. destruct l; [congruence|]. intros _. eexists. reflexivity. Qed.

Lemma argmax_from_bound (l : list score) (best_i i : nat) (best : score) :
  (best_i < i)%nat -> (argmax_from score_ltb best_i best i l < i + List.length l)%nat.
Proof.
  revert best_i i best. induction l as [|x rest IH]; intros best_i i best Hlt; simpl.
  - lia.
  - destruct (score_ltb best x).
    + specialize (IH i (S i) x). lia.
    + specialize (IH best_i (S i) best). lia.
Qed.

(** [np.argmax] of a non-empty row is an index of the row. *)
Lemma np_argmax_ok (l : list score) :
  l <> [] -> exists i, np_argmax score_ltb l = Ok i /\ (i < List.length l)%nat.
Proof.
  destruct l as [|x rest]; [congruence|]. intros _.
  eexists. split; [reflexivity|].
  pose proof (argmax_from_bound rest 0 1 x). simpl. lia.
Qed.


Lemma argmax_rows_ok (rows : list (list score)) :
  Forall (fun row => row <> []) rows ->
  exists idxs, argmax_rows score_ltb rows = Ok idxs /\
               Forall2 (fun row i => np_argmax score_ltb row = Ok i) rows idxs.
Proof.
  intros H. apply mapM_ok. eapply Forall_impl; [|exact H].
  intros row Hrow. destruct (np_argmax_ok row Hrow) as (i & Hi & _). eauto.
Qed.

Lemma softmax_row_ok (row : list score) :
  row <> [] ->
  softmax_row softmax row = Ok (softmax row) /\ softmax row <> [] /\
  List.length (softmax row) = List.length row.
Proof using softmax_length.
  intros Hrow. destruct row as [|x rest]; [congruence|].
  split; [reflexivity|]. split; [|apply softmax_length].
  intros E. apply (f_equal (@List.length score)) in E.
  rewrite softmax_length in E. discriminate.
Qed.

(** The optional softmax keeps the number of rows and their widths. *)
Lemma softmax_if_ok (logits : bool) (rows : list (list score)) (w : nat) :
  (0 < w)%nat -> Forall (fun row => List.length row = w) rows ->
  exists rows', softmax_if softmax logits rows = Ok rows' /\
                List.length rows' = List.length rows /\
                Forall (fun row => List.length row = w) rows'.
Proof using softmax_length.
  intros Hw Hrows. destruct logits; simpl; [|eauto].
  induction Hrows as [|row rows Hrow _ (rows' & IH & Hlen & Hall)].
  - exists []. repeat split; constructor.
  - destruct (softmax_row_ok row) as (E & _ & Hl).
    { destruct row; simpl in *; [lia|discriminate]. }
    exists (softmax row :: rows'). simpl. rewrite E. simpl. rewrite IH. simpl.
    repeat split; [congruence|]. constructor; [congruence|assumption].
Qed.

Lemma rows_nonempty (rows : list (list score)) (w : nat) :
  (0 < w)%nat -> Forall (fun row => List.length row = w) rows ->
  Forall (fun row => row <> []) rows.
Proof.
  intros Hw. apply Forall_impl. intros row Hrow ->. simpl in Hrow. lia.
Qed.

End ArrayFacts.

Lemma size_of_3 (d0 d1 d2 : nat) : size_of [d0; d1; d2] = (d0 * (d1 * d2))%nat.
Proof. unfold size_of. simpl. lia. Qed.

Lemma dims3_positive (d0 d1 d2 n : nat) :
  n = (d0 * (d1 * d2))%nat -> (0 < n)%nat ->
  (0 < d2)%nat /\ (d1 * d2 <= n)%nat.
Proof.
  intros -> Hpos. split.
  - destruct d2; [rewrite !Nat.mul_0_r in Hpos|]; lia.
  - destruct d0; simpl in *; lia.
Qed.

Lemma kept_not_special (captcha : bool) (l : list Z) :
  Forall (fun idx => idx <> Tokenizer.eos_id /\
                     Tokenizer.is_special (Tokenizer.ids captcha) idx = false)
         (TokenizerSpec.kept captcha l).
Proof.
  unfold TokenizerSpec.kept. apply Forall_forall. intros idx Hin.
  apply filter_In in Hin as [Hin Hs]. apply negb_true_iff in Hs. split; [|exact Hs].
  clear Hs. induction l as [|i rest IH]; simpl in Hin; [contradiction|].
  destruct (Z.eqb_spec i Tokenizer.eos_id) as [|Hne]; [contradiction|].
  destruct Hin as [<-|Hin]; auto.
Qed.

Section DecoderFacts.

Context {score : Type}.
Variable score_ltb : score -> score -> bool.
Variable score_zero : score.
Variable softmax : list score -> list score.
Variable score_index : score -> option nat.
Hypothesis softmax_length : forall row, List.length (softmax row) = List.length row.

Local Notation "'postprocess'" :=
  (postprocess_output score_ltb score_zero softmax score_index).

(** The tokenizer path, run on a well-formed array: the argmax indices
    exist, one per position, and the result is their decoding. *)
Lemma postprocess_tokenizer (output : ndarray score) (model_filename : string)
  (expected_text : option string) (d0 d1 d2 : nat) :
  get_model_config model_filename = Special ->
  shape output = [d0; d1; d2] ->
  well_formed output ->
  flat output <> [] ->
  exists min_val reshaped char_indices,
    np_min score_ltb (flat output) = Ok min_val /\
    softmax_if softmax (score_ltb min_val score_zero)
      (reshape_rows d1 d2 (flat output)) = Ok reshaped /\
    argmax_rows score_ltb reshaped = Ok char_indices /\
    List.length char_indices = d1 /\
    postprocess output model_filename expected_text =
    Tokenizer.decode (contains "captcha.onnx" (lower model_filename))
      (map Z.of_nat char_indices).
Proof using softmax_length.
  intros Hcfg Hshape Hwf Hne.
  destruct (np_min_ok score_ltb _ Hne) as [min_val Hmin].
  unfold well_formed in Hwf. rewrite Hshape, size_of_3 in Hwf.
  assert (Hpos : (0 < List.length (flat output))%nat)
    by (destruct (flat output); [congruence|simpl; lia]).
  destruct (dims3_positive _ _ _ _ Hwf Hpos) as (Hd2 & Hfit).
  destruct (softmax_if_ok softmax softmax_length (score_ltb min_val score_zero)
              (reshape_rows d1 d2 (flat output)) d2 Hd2
              (reshape_rows_width _ _ _ Hfit)) as (reshaped & Hsm & Hlen & Hwidth).
  destruct (argmax_rows_ok score_ltb reshaped (rows_nonempty _ _ Hd2 Hwidth))
    as (char_indices & Harg & Hall).
  exists min_val, reshaped, char_indices.
  repeat split; try assumption.
  - apply Forall2_length in Hall. rewrite <- Hall, Hlen. apply reshape_rows_length.
  - unfold postprocess_output. rewrite Hmin. simpl bind.
    rewrite Hcfg, Hshape. simpl.
    unfold tokenizer_path. rewrite Hshape, Hsm. simpl bind. now rewrite Harg.
Qed.

(** C2. On every tokenizer-format array the decoding succeeds, and its
    text is made of the symbols of the argmax indices that come before the
    first end-of-sequence index and are none of unknown, begin, pad; the
    text holds none of the four special tokens. *)
Theorem tokenizer_text_excludes_special_tokens
  (output : ndarray score) (model_filename : string)
  (expected_text : option string) (d0 d1 d2 : nat) :
  get_model_config model_filename = Special ->
  shape output = [d0; d1; d2] ->
  well_formed output ->
  flat output <> [] ->
  let captcha := contains "captcha.onnx" (lower model_filename) in
  exists min_val reshaped char_indices text,
    np_min score_ltb (flat output) = Ok min_val /\
    softmax_if softmax (score_ltb min_val score_zero)
      (reshape_rows d1 d2 (flat output)) = Ok reshaped /\
    argmax_rows score_ltb reshaped = Ok char_indices /\
    postprocess output model_filename expected_text = Ok text /\
    text = join (map (TokenizerSpec.symbol captcha)
                   (TokenizerSpec.kept captcha (map Z.of_nat char_indices))) /\
    Forall (fun idx => idx <> Tokenizer.eos_id /\
                       Tokenizer.is_special (Tokenizer.ids captcha) idx = false)
           (TokenizerSpec.kept captcha (map Z.of_nat char_indices)) /\
    contains "[E]" text = false /\ contains "[UNK]" text = false /\
    contains "[B]" text = false /\ contains "[P]" text = false.
Proof using softmax_length.
  intros Hcfg Hshape Hwf Hne captcha.
  destruct (postprocess_tokenizer output model_filename expected_text d0 d1 d2
              Hcfg Hshape Hwf Hne)
    as (min_val & reshaped & char_indices & Hmin & Hsm & Harg & _ & Hpost).
  fold captcha in Hpost.
  destruct (TokenizerFacts.decode_no_bracket captcha (map Z.of_nat char_indices))
    as (text & Hdec & Hnb).
  exists min_val, reshaped, char_indices, text.
  split; [exact Hmin|]. split; [exact Hsm|]. split; [exact Harg|].
  split; [congruence|].
  split; [rewrite TokenizerFacts.decode_scan in Hdec; congruence|].
  split; [apply kept_not_special|].
  repeat split; now apply contains_first_char.
Qed.

End DecoderFacts.

(** ** CTC collapsing on index sequences *)

Module CtcFacts.

Import Ctc CtcSpec.
Local Open Scope Z_scope.

Lemma in_digits_spec (m : mapping) (idx : Z) :
  in_digits m idx = true <-> digit_range m idx.
Proof.
  unfold in_digits, digit_range. rewrite andb_true_iff, !Z.leb_le. tauto.
Qed.

Lemma in_letters_spec (m : mapping) (idx : Z) :
  in_letters m idx || in_letters2 m idx = true <-> letter_range m idx.
Proof.
  unfold in_letters, in_letters2, letter_range.
  rewrite orb_true_iff, andb_true_iff, !Z.leb_le.
  destruct (letter2 m) as [[[s e] c]|].
  - rewrite !andb_true_iff, negb_true_iff, Z.eqb_neq, !Z.leb_le. split.
    + intros [H|H]; [now left|]. right. exists s, e, c. tauto.
    + intros [H|(s' & e' & c' & E & H)]; [now left|].
      injection E as <- <- <-. now right.
  - split.
    + intros [H|H]; [now left|discriminate].
    + intros [H|(s & e & c & E & _)]; [now left|discriminate].
Qed.

Lemma collapse_app_congr (m : mapping) (pre xs ys : list Z) :
  (forall prev, collapse m prev xs = collapse m prev ys) ->
  forall prev, collapse m prev (pre ++ xs) = collapse m prev (pre ++ ys).
Proof.
  intros H. induction pre as [|idx pre IH]; intros prev; simpl; [apply H|].
  destruct (idx =? blank_id m); [apply IH|].
  destruct (idx =? prev); [apply IH|]. now rewrite IH.
Qed.

Lemma collapse_repeat (m : mapping) (idx prev : Z) (post : list Z) :
  collapse m prev (idx :: idx :: post) = collapse m prev (idx :: post).
Proof.
  simpl. destruct (idx =? blank_id m) eqn:Hb; [reflexivity|].
  destruct (idx =? prev); [reflexivity|]. now rewrite Z.eqb_refl.
Qed.

(** A blank cuts the sequence in two parts that are collapsed apart. *)
Lemma collapse_app_blank (m : mapping) (pre post : list Z) (prev : Z) :
  collapse m prev (pre ++ blank_id m :: post) =
  (collapse m prev pre ++ collapse m (-1) post)%string.
Proof.
  revert prev. induction pre as [|idx pre IH]; intros prev; simpl.
  - now rewrite Z.eqb_refl.
  - destruct (idx =? blank_id m); [apply IH|].
    destruct (idx =? prev); [apply IH|].
    now rewrite IH, append_assoc.
Qed.

Lemma collapse_fresh (m : mapping) (idx prev : Z) (post : list Z) :
  idx <> blank_id m -> idx <> prev ->
  collapse m prev (idx :: post) = (emit m idx ++ collapse m idx post)%string.
Proof.
  intros Hb Hp. simpl. apply Z.eqb_neq in Hb, Hp. now rewrite Hb, Hp.
Qed.

End CtcFacts.

(** C3, amended.  For every mapping and every index sequence, the argmax
    loop merges a repeated index into one, gives no symbol for the blank
    and starts afresh after it, so that an index repeated across a blank
    gives its symbol twice; the path [blank, 3, 3, blank, 3, 7] with
    3 -> '3' and 7 -> '7' gives "337". *)
Theorem ctc_greedy_collapse_rule (m : Ctc.mapping) (pre post : list Z) (idx : Z) :
  idx <> Ctc.blank_id m -> (0 <= idx)%Z ->
  Ctc.greedy m (pre ++ idx :: idx :: post) = Ctc.greedy m (pre ++ idx :: post) /\
  Ctc.greedy m (pre ++ Ctc.blank_id m :: post) =
    (Ctc.greedy m pre ++ Ctc.greedy m post)%string /\
  Ctc.greedy m (idx :: Ctc.blank_id m :: idx :: post) =
    (Ctc.emit m idx ++ Ctc.emit m idx ++ Ctc.collapse m idx post)%string /\
  Ctc.greedy (Ctc.mk "blank(33), 0-9(0-9), A-Z(10-32)" 33 0 9 10 32 "0" "A" None)
    [33; 3; 3; 33; 3; 7]%Z = "337" /\
  In (Ctc.mk "blank(33), 0-9(0-9), A-Z(10-32)" 33 0 9 10 32 "0" "A" None)
     Ctc.mappings_config.
Proof.
  intros Hb Hpos. unfold Ctc.greedy. repeat split.
  - apply CtcFacts.collapse_app_congr. intros prev. apply CtcFacts.collapse_repeat.
  - apply CtcFacts.collapse_app_blank.
  - rewrite (CtcFacts.collapse_app_blank m [idx] (idx :: post)).
    rewrite !CtcFacts.collapse_fresh by (assumption || lia).
    simpl. now rewrite append_assoc.
  - right. right. left. reflexivity.
Qed.

Lemma ctc_greedy_collapse_rule_witness :
  Ctc.greedy (nth 0 Ctc.mappings_config (Ctc.mk "" 0 0 0 0 0 "0" "A" None))
    [4; 0; 4; 9]%Z = "338".
Proof.
  pose proof (ctc_greedy_collapse_rule
                (nth 0 Ctc.mappings_config (Ctc.mk "" 0 0 0 0 0 "0" "A" None))
                [] [9%Z] 4%Z) as H.
  destruct H as (_ & _ & H & _).
  - simpl. lia.
  - lia.
  - exact H.
Defined.

(** The example of the claim as it is written: no mapping of the code
    gives "37" for [blank, 3, 3, blank, 3, 7]. *)
Lemma ctc_example_37_counterexample :
  Forall (fun m =>
            Ctc.greedy m [Ctc.blank_id m; 3; 3; Ctc.blank_id m; 3; 7]%Z <> "37")
         Ctc.mappings_config.
Proof.
  unfold Ctc.mappings_config.
  repeat (constructor; [vm_compute; discriminate|]). constructor.
Qed.

(** ** The scorer *)

Module ScoreFacts.

Import Score ScoreSpec.
Local Open Scope Z_scope.

Lemma filter_seq_shift (f : nat -> bool) (k n : nat) :
  List.length (filter f (seq (S k) n)) =
  List.length (filter (fun i => f (S i)) (seq k n)).
Proof.
  revert k. induction n as [|n IH]; intros k; simpl; [reflexivity|].
  destruct (f (S k)); simpl; now rewrite IH.
Qed.

Lemma matching_positions_cons (a b : ascii) (h e : string) :
  matching_positions (String a h) (String b e) =
  ((if Ascii.eqb a b then 1 else 0) + matching_positions h e)%nat.
Proof.
  unfold matching_positions.
  change (String.length (String a h)) with (S (String.length h)).
  change (String.length (String b e)) with (S (String.length e)).
  rewrite <- Nat.succ_min_distr. cbn [seq filter].
  change (agree (String a h) (String b e) 0) with (Ascii.eqb a b).
  destruct (Ascii.eqb a b); cbn [List.length];
    now rewrite (filter_seq_shift (agree (String a h) (String b e))).
Qed.

Lemma matching_positions_nil_r (h : string) : matching_positions h "" = 0%nat.
Proof. unfold matching_positions. now rewrite Nat.min_0_r. Qed.

(** The loop over [range(min_len)] counts ten for each such position. *)
Lemma position_score_counts (h e : string) :
  position_score h e = 10 * Z.of_nat (matching_positions h e).
Proof.
  revert e. induction h as [|a h IH]; intros e; [reflexivity|].
  destruct e as [|b e].
  - now rewrite matching_positions_nil_r.
  - simpl position_score. rewrite IH, matching_positions_cons.
    destruct (Ascii.eqb a b); lia.
Qed.

Lemma matching_positions_le (h e : string) :
  (matching_positions h e <= Nat.min (String.length h) (String.length e))%nat.
Proof.
  unfold matching_positions.
  etransitivity; [apply filter_length_le|]. now rewrite length_seq.
Qed.

Lemma match_score_nonneg (h e : string) : 0 <= match_score h e.
Proof.
  unfold match_score. destruct (h =? e)%string; [lia|].
  rewrite position_score_counts.
  destruct (String.length h =? String.length e)%nat; lia.
Qed.

(** A label below 100 characters: nothing but the label itself reaches
    the score of an exact match. *)
Lemma match_score_below_exact (h e : string) :
  (String.length e < 100)%nat -> h <> e -> match_score h e < 1000.
Proof.
  intros Hlen Hne. unfold match_score.
  apply String.eqb_neq in Hne. rewrite Hne.
  rewrite position_score_counts.
  pose proof (matching_positions_le h e).
  destruct (String.length h =? String.length e)%nat; lia.
Qed.

(** The running maximum: either nothing beats the start, or the result
    is the first text of the largest score. *)
Lemma pick_best_first_max (e : string) (texts : list string) (b : string) (s : Z) :
  let r := pick_best e texts b s in
  (r = (b, s) /\ Forall (fun t => match_score t e <= s) texts) \/
  (exists pre post,
      texts = pre ++ fst r :: post /\ snd r = match_score (fst r) e /\ s < snd r /\
      Forall (fun t => match_score t e < snd r) pre /\
      Forall (fun t => match_score t e <= snd r) post).
Proof.
  revert b s. induction texts as [|t rest IH]; intros b s; simpl.
  - left. split; [reflexivity|constructor].
  - destruct (s <? match_score t e) eqn:Hlt.
    + apply Z.ltb_lt in Hlt. right.
      destruct (IH t (match_score t e)) as [[Hr Hall]|(pre & post & Hs & Hsc & Hgt & Hpre & Hpost)].
      * rewrite Hr. simpl. exists [], rest. repeat split; auto; lia.
      * exists (t :: pre), post. rewrite Hs at 1.
        repeat split; auto; try lia; try (constructor; [lia|assumption]).
    + apply Z.ltb_ge in Hlt.
      destruct (IH b s) as [[Hr Hall]|(pre & post & Hs & Hsc & Hgt & Hpre & Hpost)].
      * left. split; [assumption|]. constructor; assumption.
      * right. exists (t :: pre), post. rewrite Hs at 1.
        repeat split; auto; try lia; try (constructor; [lia|assumption]).
Qed.

End ScoreFacts.

(** ** The label in the choice among the CRNN results *)

Lemma nonempty_false (s : string) : nonempty s = false <-> s = "".
Proof. destruct s; simpl; split; congruence. Qed.

Lemma find_exact_found (label : string) (results : list (string * string)) :
  In label (map snd results) -> Select.find_exact label results = label.
Proof.
  induction results as [|[name text] results IH]; simpl; [contradiction|].
  destruct (String.eqb_spec text label) as [->|Hne]; [reflexivity|].
  intros [H|H]; [contradiction|auto].
Qed.

Lemma find_exact_cases (label : string) (results : list (string * string)) :
  Select.find_exact label results = "" \/
  (Select.find_exact label results = label /\ In label (map snd results)).
Proof.
  induction results as [|[name text] results IH]; simpl; [now left|].
  destruct (String.eqb_spec text label) as [->|Hne]; [right; auto|].
  destruct IH as [IH|[IH Hin]]; [now left|right; auto].
Qed.

Lemma prefer_digits_cases (best_text : string) (r : string * string) :
  Select.prefer_digits best_text r = best_text \/
  Select.prefer_digits best_text r = snd r.
Proof.
  unfold Select.prefer_digits.
  destruct (_ && _ && _); [|now left]. destruct (_ || _); auto.
Qed.

Lemma fold_prefer_digits_in (results : list (string * string)) (best_text : string) :
  fold_left Select.prefer_digits results best_text = best_text \/
  In (fold_left Select.prefer_digits results best_text) (map snd results).
Proof.
  revert best_text. induction results as [|r results IH]; intros best_text; simpl;
    [now left|].
  destruct (IH (Select.prefer_digits best_text r)) as [->|Hin]; [|auto].
  destruct (prefer_digits_cases best_text r) as [->| ->]; auto.
Qed.

Lemma select_label_absent (label : string) (results : list (string * string)) :
  ~ In label (map snd results) ->
  Select.select (Some label) results = Select.select None results.
Proof.
  intros Hnot. unfold Select.select. destruct (nonempty label); [|reflexivity].
  destruct (find_exact_cases label results) as [-> | [_ Hin]];
    [reflexivity|contradiction].
Qed.

Lemma select_ok (expected_text : option string) (results : list (string * string)) :
  results <> [] ->
  exists text,
    Select.select expected_text results = Ok text /\
    In text (map snd results) /\
    (forall label, expected_text = Some label -> label <> "" ->
                   In label (map snd results) -> text = label).
Proof.
  intros Hne. unfold Select.select.
  set (b0 := match expected_text with
             | Some e => if nonempty e then Select.find_exact e results else ""
             | None => ""
             end).
  assert (Hb0 : b0 = "" \/
                (exists label, expected_text = Some label /\ b0 = label /\
                               In label (map snd results))).
  { subst b0. destruct expected_text as [e|]; [|now left].
    destruct (nonempty e); [|now left].
    destruct (find_exact_cases e results) as [H|[H Hin]]; [now left|].
    right. exists e. auto. }
  assert (Hfound : forall label, expected_text = Some label -> label <> "" ->
                                 In label (map snd results) -> b0 = label).
  { intros label -> Hl Hin. subst b0.
    destruct (nonempty label) eqn:E; [now apply find_exact_found|].
    now apply nonempty_false in E. }
  destruct (nonempty b0) eqn:Eb0; cbn [negb].
  - destruct Hb0 as [Hb0|(label & He & Hb & Hin)];
      [rewrite Hb0 in Eb0; discriminate|].
    rewrite Eb0. cbn [negb]. exists b0. split; [reflexivity|].
    split; [now rewrite Hb|]. exact Hfound.
  - apply nonempty_false in Eb0.
    assert (Hlast : forall l, expected_text = Some l -> l <> "" ->
                              ~ In l (map snd results)).
    { intros l Hl Hl' Hin. apply Hl'. now rewrite <- (Hfound l Hl Hl' Hin). }
    rewrite Eb0.
    destruct (fold_prefer_digits_in results "") as [Hf|Hin].
    + rewrite Hf. cbn [nonempty negb].
      destruct results as [|[name text] rest]; [contradiction|].
      exists text. split; [reflexivity|]. split; [now left|].
      intros l Hl Hl' Hin. now destruct (Hlast l Hl Hl').
    + destruct (nonempty (fold_left Select.prefer_digits results "")) eqn:E; cbn [negb].
      * eexists. split; [reflexivity|]. split; [assumption|].
        intros l Hl Hl' Hin'. now destruct (Hlast l Hl Hl').
      * destruct results as [|[name text] rest]; [contradiction|].
        exists text. split; [reflexivity|]. split; [now left|].
        intros l Hl Hl' Hin'. now destruct (Hlast l Hl Hl').
Qed.

Lemma select_in (expected_text : option string) (results : list (string * string))
  (text : string) :
  Select.select expected_text results = Ok text -> In text (map snd results).
Proof.
  destruct results as [|r results].
  - unfold Select.select. destruct expected_text as [e|]; [|discriminate].
    destruct (nonempty e); discriminate.
  - destruct (select_ok expected_text (r :: results)) as (t & -> & Hin & _);
      [discriminate|].
    now intros [= <-].
Qed.

(** C4, amended.  The scorer of the character-set variants: with a label
    given, a hypothesis other than the label scores ten for every
    position, over the shorter length, where it agrees with the label,
    plus five when the lengths are equal; the label itself scores 1000,
    which is above every other score when the label has fewer than 100
    characters; the scorer returns the first hypothesis of the largest
    score.  The choice among the CRNN results gives no score: it returns
    the label when a result equals it, and otherwise what it returns
    without a label. *)
Theorem scorer_returns_first_maximum (expected_text : string) (texts : list string) :
  texts <> [] ->
  (forall h, h <> expected_text ->
     Score.match_score h expected_text =
     (10 * Z.of_nat (ScoreSpec.matching_positions h expected_text) +
      (if (String.length h =? String.length expected_text)%nat then 5 else 0))%Z) /\
  Score.match_score expected_text expected_text = 1000%Z /\
  ((String.length expected_text < 100)%nat ->
   forall h, h <> expected_text -> (Score.match_score h expected_text < 1000)%Z) /\
  (exists pre post,
      texts = pre ++ Score.best expected_text texts :: post /\
      Forall (fun t => (Score.match_score t expected_text <
                        Score.match_score (Score.best expected_text texts) expected_text)%Z)
             pre /\
      Forall (fun t => (Score.match_score t expected_text <=
                        Score.match_score (Score.best expected_text texts) expected_text)%Z)
             post) /\
  Score.best "AB13" ["AB12"; "A B1"] = "AB12" /\
  (forall results : list (string * string),
      results <> [] ->
      exists text,
        Select.select (Some expected_text) results = Ok text /\
        In text (map snd results) /\
        (expected_text <> "" -> In expected_text (map snd results) ->
         text = expected_text) /\
        (~ In expected_text (map snd results) ->
         Select.select (Some expected_text) results = Select.select None results)) /\
  Select.select (Some "AB13") [("first", "AXB1"); ("second", "AB12")] = Ok "AXB1".
Proof.
  intros Hne. split; [|split; [|split; [|split; [|split; [|split]]]]].
  - intros h Hh. unfold Score.match_score.
    apply String.eqb_neq in Hh. rewrite Hh.
    now rewrite ScoreFacts.position_score_counts.
  - unfold Score.match_score. now rewrite String.eqb_refl.
  - intros Hlen h Hh. now apply ScoreFacts.match_score_below_exact.
  - unfold Score.best.
    destruct (ScoreFacts.pick_best_first_max expected_text texts "" (-1)%Z)
      as [[_ Hall]|(pre & post & Hs & Hsc & _ & Hpre & Hpost)].
    + destruct texts as [|t rest]; [congruence|].
      apply Forall_inv in Hall.
      pose proof (ScoreFacts.match_score_nonneg t expected_text). lia.
    + exists pre, post. rewrite <- Hsc. auto.
  - reflexivity.
  - intros results Hres.
    destruct (select_ok (Some expected_text) results Hres) as (text & Hsel & Hin & Hlabel).
    exists text. split; [assumption|]. split; [assumption|]. split.
    + intros Hl Hin'. now apply Hlabel.
    + now apply select_label_absent.
  - reflexivity.
Qed.

Lemma scorer_returns_first_maximum_witness :
  Score.match_score "A B1" "AB13" = 15%Z /\
  (Score.match_score "AB12" "AB13" < 1000)%Z.
Proof.
  destruct (scorer_returns_first_maximum "AB13" ["AB12"; "A B1"]) as (H1 & _ & H3 & _).
  - discriminate.
  - split.
    + rewrite H1 by discriminate. reflexivity.
    + apply H3; [simpl; lia|discriminate].
Defined.

(** The claim as it is written.  In the scorer a near miss of 101
    characters scores above the exact match and is returned in its place;
    and the choice among the CRNN results counts no positions: of "AXB1"
    and "AB12" with the label "AB13" it returns the first, where the
    scorer returns the second. *)
Lemma exact_match_not_dominant_counterexample :
  let expected_text := str_repeat "a" 101 in
  let near := (str_repeat "a" 100 ++ "b")%string in
  near <> expected_text /\
  Score.match_score expected_text expected_text = 1000%Z /\
  Score.match_score near expected_text = 1005%Z /\
  Score.best expected_text [expected_text; near] = near /\
  Score.best "AB13" ["AXB1"; "AB12"] = "AB12" /\
  Select.select (Some "AB13") [("first", "AXB1"); ("second", "AB12")] = Ok "AXB1".
Proof.
  repeat split; try (vm_compute; reflexivity).
  vm_compute. discriminate.
Qed.

(** ** Choosing among the CRNN results *)

Module SelectFacts.

Import Select SelectSpec.
Local Open Scope nat_scope.





End SelectFacts.

(** ** The CRNN path on arrays *)

Section CrnnFacts.

Context {score : Type}.
Variable score_ltb : score -> score -> bool.
Variable score_zero : score.
Variable softmax : list score -> list score.
Variable score_index : score -> option nat.
Hypothesis softmax_length : forall row, List.length (softmax row) = List.length row.

Lemma insert_sorted_length (x : score * nat) (l : list (score * nat)) :
  List.length (insert_sorted score_ltb x l) = S (List.length l).
Proof.
  induction l as [|y rest IH]; simpl; [reflexivity|].
  destruct (score_ltb (fst x) (fst y)); simpl; congruence.
Qed.

Lemma np_argsort_length (row : list score) :
  List.length (np_argsort score_ltb row) = List.length row.
Proof.
  unfold np_argsort. rewrite length_map.
  assert (H : forall (ps acc : list (score * nat)),
             List.length (fold_left (fun a x => insert_sorted score_ltb x a) ps acc) =
             (List.length ps + List.length acc)%nat).
  { induction ps as [|p ps IH]; intros acc; simpl; [reflexivity|].
    rewrite IH, insert_sorted_length. lia. }
  rewrite H, length_combine, length_seq. simpl. lia.
Qed.

Lemma top2_ok (row : list score) :
  (2 <= List.length row)%nat -> exists p, top2 score_ltb row = Ok p.
Proof.
  intros Hlen. unfold top2.
  pose proof (np_argsort_length row) as Hs. rewrite <- length_rev in Hs.
  destruct (rev (np_argsort score_ltb row)) as [|i1 [|i2 rest]]; simpl in Hs; try lia.
  eauto.
Qed.

Lemma collapse_top2_ok (m : Ctc.mapping) (rows : list (list score)) :
  Forall (fun row => (2 <= List.length row)%nat) rows ->
  forall prev, exists text, collapse_top2 score_ltb m prev rows = Ok text.
Proof.
  induction 1 as [|row rows Hrow _ IH]; intros prev; simpl; [eauto|].
  destruct (top2_ok row Hrow) as [p ->]. simpl.
  destruct (Ctc.choose_top2 m (fst p) (snd p) =? Ctc.blank_id m)%Z; [apply IH|].
  destruct (Ctc.choose_top2 m (fst p) (snd p) =? prev)%Z; [apply IH|].
  destruct (IH (Ctc.choose_top2 m (fst p) (snd p))) as [text ->]. simpl. eauto.
Qed.

(** The top-2 loop is the collapsing of the chosen indices. *)
Lemma collapse_top2_chosen (m : Ctc.mapping) (rows : list (list score))
  (pairs : list (Z * Z)) (prev : Z) :
  mapM (top2 score_ltb) rows = Ok pairs ->
  collapse_top2 score_ltb m prev rows =
  Ok (Ctc.collapse m prev (map (fun p => Ctc.choose_top2 m (fst p) (snd p)) pairs)).
Proof.
  revert pairs prev. induction rows as [|row rows IH]; intros pairs prev H; simpl in H.
  - injection H as <-. reflexivity.
  - destruct (top2 score_ltb row) as [p|] eqn:Hp; simpl in H; [|discriminate].
    destruct (mapM (top2 score_ltb) rows) as [ps|] eqn:Hps; simpl in H; [|discriminate].
    injection H as <-. simpl. rewrite Hp. simpl.
    destruct (Ctc.choose_top2 m (fst p) (snd p) =? Ctc.blank_id m)%Z; [now apply IH|].
    destruct (Ctc.choose_top2 m (fst p) (snd p) =? prev)%Z; [now apply IH|].
    now rewrite (IH ps).
Qed.

Lemma crnn_results_ok (ms : list Ctc.mapping) (char_indices : list Z)
  (rows : list (list score)) :
  Forall (fun row => (2 <= List.length row)%nat) rows ->
  exists results,
    crnn_results score_ltb ms char_indices rows = Ok results /\
    hd_error results =
    option_map (fun m => (Ctc.mapping_name m, Ctc.greedy m char_indices)) (hd_error ms).
Proof.
  intros Hrows. induction ms as [|m ms (rest & IH & _)]; simpl.
  - exists []. split; reflexivity.
  - destruct (collapse_top2_ok m rows Hrows (-1)%Z) as [text ->]. simpl.
    rewrite IH. simpl. eexists. split; reflexivity.
Qed.

Local Notation "'postprocess'" :=
  (postprocess_output score_ltb score_zero softmax score_index).

(** The CRNN path, run on a well-formed time-major array. *)
Lemma postprocess_crnn (output : ndarray score) (model_filename : string)
  (expected_text : option string) (d0 d2 : nat) :
  contains "crnn" (lower model_filename) = true ->
  get_model_config model_filename <> Special ->
  shape output = [d0; 1; d2] -> (1 < d0)%nat -> (1 < d2)%nat ->
  well_formed output ->
  exists min_val reshaped char_indices results,
    np_min score_ltb (flat output) = Ok min_val /\
    softmax_if softmax (score_ltb min_val score_zero)
      (map (firstn d2) (reshape_rows d0 (1 * d2) (flat output))) = Ok reshaped /\
    argmax_rows score_ltb reshaped = Ok char_indices /\
    crnn_results score_ltb Ctc.mappings_config (map Z.of_nat char_indices) reshaped
      = Ok results /\
    hd_error results =
      option_map (fun m => (Ctc.mapping_name m,
                            Ctc.greedy m (map Z.of_nat char_indices)))
                 (hd_error Ctc.mappings_config) /\
    postprocess output model_filename expected_text =
      Select.select expected_text results.
Proof using softmax_length.
  intros Hcrnn Hcfg Hshape Hd0 Hd2 Hwf.
  unfold well_formed in Hwf. rewrite Hshape, size_of_3 in Hwf.
  assert (Hne : flat output <> []).
  { intros E. rewrite E in Hwf. simpl in Hwf. nia. }
  destruct (np_min_ok score_ltb _ Hne) as [min_val Hmin].
  assert (Hwidth : Forall (fun row => List.length row = d2)
                     (map (firstn d2) (reshape_rows d0 (1 * d2) (flat output)))).
  { apply Forall_map.
    eapply Forall_impl; [|apply reshape_rows_width; rewrite Hwf; apply Nat.le_refl].
    intros row Hrow. simpl in *. rewrite length_firstn. lia. }
  assert (Hpos : (0 < d2)%nat) by lia.
  destruct (softmax_if_ok softmax softmax_length (score_ltb min_val score_zero)
              _ d2 Hpos Hwidth) as (reshaped & Hsm & _ & Hw').
  destruct (argmax_rows_ok score_ltb reshaped (rows_nonempty _ _ Hpos Hw'))
    as (char_indices & Harg & _).
  assert (Hrows2 : Forall (fun row => (2 <= List.length row)%nat) reshaped).
  { eapply Forall_impl; [|exact Hw']. intros row Hrow. simpl in Hrow. lia. }
  destruct (crnn_results_ok Ctc.mappings_config (map Z.of_nat char_indices) reshaped Hrows2)
    as (results & Hres & Hhd).
  exists min_val, reshaped, char_indices, results.
  repeat split; try assumption.
  unfold postprocess_output. rewrite Hmin. simpl bind.
  assert (Hnot : (match get_model_config model_filename with
                  | Special => true | _ => false end) = false).
  { destruct (get_model_config model_filename); congruence. }
  rewrite Hnot, Hcrnn, Hshape. cbn [List.length Nat.eqb andb].
  unfold crnn_path, crnn_rows. rewrite Hshape.
  assert (Hlt : (1 <? d0)%nat = true) by now apply Nat.ltb_lt.
  rewrite Hlt. cbn [bind]. rewrite Hsm. cbn [bind].
  rewrite Harg. cbn [bind]. rewrite Hres. reflexivity.
Qed.


End CrnnFacts.

(** C5, amended.  The top-2 loop is the collapsing of one chosen index
    for each time step, and the second index of a step is chosen exactly
    when it lies in the digit range and the first index lies in a letter
    range or is the blank; otherwise the first index is chosen. *)
Theorem top2_prefers_digit_over_letter_or_blank (m : Ctc.mapping) (idx1 idx2 : Z) :
  let prefer :=
    CtcSpec.digit_range m idx2 /\
    (CtcSpec.letter_range m idx1 \/ idx1 = Ctc.blank_id m) in
  (prefer -> Ctc.choose_top2 m idx1 idx2 = idx2) /\
  (~ prefer -> Ctc.choose_top2 m idx1 idx2 = idx1) /\
  (forall (score : Type) (score_ltb : score -> score -> bool)
          (reshaped : list (list score)) (pairs : list (Z * Z)) (prev_idx : Z),
      mapM (top2 score_ltb) reshaped = Ok pairs ->
      collapse_top2 score_ltb m prev_idx reshaped =
      Ok (Ctc.collapse m prev_idx
            (map (fun p => Ctc.choose_top2 m (fst p) (snd p)) pairs))).
Proof.
  intros prefer. split; [|split].
  - intros [Hd Hl]. unfold Ctc.choose_top2.
    apply CtcFacts.in_digits_spec in Hd. rewrite Hd. simpl.
    destruct Hl as [Hl|Hl].
    + apply CtcFacts.in_letters_spec in Hl. now rewrite Hl.
    + apply Z.eqb_eq in Hl. now rewrite Hl, orb_true_r.
  - intros Hn. unfold Ctc.choose_top2.
    destruct (Ctc.in_digits m idx2 &&
              (Ctc.in_letters m idx1 || Ctc.in_letters2 m idx1 ||
               (idx1 =? Ctc.blank_id m)%Z)) eqn:E; [|reflexivity].
    exfalso. apply Hn.
    apply andb_true_iff in E as [Hd Hl]. split; [now apply CtcFacts.in_digits_spec|].
    apply orb_true_iff in Hl as [Hl|Hl].
    + left. now apply CtcFacts.in_letters_spec.
    + right. now apply Z.eqb_eq.
  - intros score score_ltb reshaped pairs prev_idx.
    apply collapse_top2_chosen.
Qed.

Lemma top2_prefers_digit_over_letter_or_blank_witness :
  Ctc.choose_top2 (Ctc.mk "blank(0), 0-9(1-10), A-Z(11-33)" 0 1 10 11 33 "0" "A" None)
    12 3 = 3%Z.
Proof.
  apply (top2_prefers_digit_over_letter_or_blank
           (Ctc.mk "blank(0), 0-9(1-10), A-Z(11-33)" 0 1 10 11 33 "0" "A" None) 12 3).
  split.
  - unfold CtcSpec.digit_range. simpl. lia.
  - left. left. simpl. lia.
Defined.

(** The claim as it is written keeps a blank first index.  The code
    leaves it for a digit: a time step whose best index is the blank 0 and
    whose second best is the digit index 1 gives the character '0'. *)
Lemma top2_blank_counterexample :
  ~ (forall m idx1 idx2,
        In m Ctc.mappings_config -> idx1 = Ctc.blank_id m ->
        Ctc.choose_top2 m idx1 idx2 = idx1) /\
  top2 Z.ltb (ZScores.peaks 34 0 1) = Ok (0%Z, 1%Z) /\
  collapse_top2 Z.ltb
    (Ctc.mk "blank(0), 0-9(1-10), A-Z(11-33)" 0 1 10 11 33 "0" "A" None)
    (-1) [ZScores.peaks 34 0 1] = Ok "0".
Proof.
  split; [|split; reflexivity].
  intros H.
  specialize (H (Ctc.mk "blank(0), 0-9(1-10), A-Z(11-33)" 0 1 10 11 33 "0" "A" None)
                0%Z 1%Z (or_introl eq_refl) eq_refl).
  discriminate H.
Qed.

(** ** Indices beyond the special tokens *)

Lemma tokenizer_emit_beyond_pad (captcha : bool) (idx : Z) :
  (Tokenizer.pad_id (Tokenizer.ids captcha) < idx)%Z ->
  captcha = true \/ idx <> 95%Z ->
  Tokenizer.emit captcha idx = Ok "" /\ idx <> Tokenizer.eos_id.
Proof.
  intros Hpad Hcase.
  assert (Hs : Tokenizer.is_special (Tokenizer.ids captcha) idx = false).
  { destruct (Tokenizer.is_special (Tokenizer.ids captcha) idx) eqn:E; [|reflexivity].
    apply TokenizerFacts.is_special_values in E.
    destruct captcha.
    - change (Tokenizer.pad_id (Tokenizer.ids true)) with 65%Z in Hpad. lia.
    - change (Tokenizer.pad_id (Tokenizer.ids false)) with 94%Z in Hpad. lia. }
  unfold Tokenizer.emit, Tokenizer.eos_id. destruct captcha.
  - change (Tokenizer.ids true) with Tokenizer.captcha_ids in Hs. rewrite Hs.
    change (Tokenizer.pad_id (Tokenizer.ids true)) with 65%Z in Hpad.
    change Tokenizer.charset_end with 62%Z.
    destruct (Z.leb_spec idx 62); [lia|]. rewrite andb_false_r.
    destruct (Tokenizer.pad_id Tokenizer.captcha_ids <? idx)%Z; split; (reflexivity || lia).
  - change (Tokenizer.ids false) with Tokenizer.other_ids in Hs. rewrite Hs.
    change (Tokenizer.pad_id (Tokenizer.ids false)) with 94%Z in Hpad.
    change (Tokenizer.len (Tokenizer.charset Tokenizer.other_ids)) with 63%Z.
    destruct (Z.leb_spec idx 63); [lia|]. rewrite andb_false_r.
    destruct (1 <=? Tokenizer.charset_size)%Z; [|split; [reflexivity|lia]].
    destruct (Z.leb_spec (32 + idx - 1) 126); [destruct Hcase; [discriminate|lia]|].
    rewrite andb_false_r. split; [reflexivity|lia].
Qed.

Section TokenizerOverflow.

Context {score : Type}.
Variable score_ltb : score -> score -> bool.
Variable score_zero : score.
Variable softmax : list score -> list score.
Variable score_index : score -> option nat.
Hypothesis softmax_length : forall row, List.length (softmax row) = List.length row.

Local Notation "'postprocess'" :=
  (postprocess_output score_ltb score_zero softmax score_index).

(** C8, amended.  On every tokenizer-format array, an argmax index above
    the pad index adds nothing to the text: the text is that of the
    sequence without it.  This holds for every such index with the ids of
    [captcha.onnx], and for every such index but 95 with the ids of the
    other models, where 95 gives the character of code 126. *)
Theorem tokenizer_drops_indices_beyond_pad
  (output : ndarray score) (model_filename : string)
  (expected_text : option string) (d0 d1 d2 : nat) :
  get_model_config model_filename = Special ->
  shape output = [d0; d1; d2] ->
  well_formed output ->
  flat output <> [] ->
  let captcha := contains "captcha.onnx" (lower model_filename) in
  (exists min_val reshaped char_indices,
    np_min score_ltb (flat output) = Ok min_val /\
    softmax_if softmax (score_ltb min_val score_zero)
      (reshape_rows d1 d2 (flat output)) = Ok reshaped /\
    argmax_rows score_ltb reshaped = Ok char_indices /\
    forall pre idx post,
      map Z.of_nat char_indices = pre ++ idx :: post ->
      (Tokenizer.pad_id (Tokenizer.ids captcha) < idx)%Z ->
      captcha = true \/ idx <> 95%Z ->
      postprocess output model_filename expected_text =
      Tokenizer.decode captcha (pre ++ post)) /\
  Tokenizer.emit false 95 = Ok "~".
Proof using softmax_length.
  intros Hcfg Hshape Hwf Hne captcha. split; [|reflexivity].
  destruct (postprocess_tokenizer score_ltb score_zero softmax score_index softmax_length
              output model_filename expected_text d0 d1 d2 Hcfg Hshape Hwf Hne)
    as (min_val & reshaped & char_indices & Hmin & Hsm & Harg & _ & Hpost).
  exists min_val, reshaped, char_indices.
  repeat split; try assumption.
  intros pre idx post Hsplit Hpad Hcase.
  rewrite Hpost. fold captcha. rewrite Hsplit.
  destruct (tokenizer_emit_beyond_pad captcha idx Hpad Hcase) as [He Hn].
  now apply TokenizerFacts.decode_drop_silent.
Qed.

End TokenizerOverflow.

(** *** The theorems on concrete arrays *)

Lemma tokenizer_text_excludes_special_tokens_witness :
  exists text,
    ZScores.decode
      (ZScores.array [1; 4; 66]
         (ZScores.peaks 66 15 0 ++ ZScores.peaks 66 64 1 ++
          ZScores.peaks 66 0 1 ++ ZScores.peaks 66 9 0))
      "captcha.onnx" None = Ok text /\
    contains "[E]" text = false /\ contains "[B]" text = false.
Proof.
  destruct (tokenizer_text_excludes_special_tokens
              Z.ltb 0%Z ZScores.softmax_shift ZScores.index_of softmax_shift_length
              (ZScores.array [1; 4; 66]
                 (ZScores.peaks 66 15 0 ++ ZScores.peaks 66 64 1 ++
                  ZScores.peaks 66 0 1 ++ ZScores.peaks 66 9 0))
              "captcha.onnx" None 1 4 66)
    as (_ & _ & _ & text & _ & _ & _ & Hpost & _ & _ & HE & _ & HB & _).
  - reflexivity.
  - reflexivity.
  - reflexivity.
  - discriminate.
  - exists text. unfold ZScores.decode. auto.
Defined.

Lemma tokenizer_drops_indices_beyond_pad_witness :
  ZScores.decode
    (ZScores.array [1; 3; 96]
       (ZScores.peaks 96 15 0 ++ ZScores.peaks 96 80 1 ++ ZScores.peaks 96 52 0))
    "captcha.onnx" None = Tokenizer.decode true [15; 52]%Z.
Proof.
  destruct (tokenizer_drops_indices_beyond_pad
              Z.ltb 0%Z ZScores.softmax_shift ZScores.index_of softmax_shift_length
              (ZScores.array [1; 3; 96]
                 (ZScores.peaks 96 15 0 ++ ZScores.peaks 96 80 1 ++ ZScores.peaks 96 52 0))
              "captcha.onnx" None 1 3 96)
    as ((min_val & reshaped & char_indices & Hmin & Hsm & Harg & Hdrop) & _).
  - reflexivity.
  - reflexivity.
  - reflexivity.
  - discriminate.
  - vm_compute in Hmin. injection Hmin as <-.
    vm_compute in Hsm. injection Hsm as <-.
    vm_compute in Harg. injection Harg as <-.
    apply (Hdrop [15%Z] 80%Z [52%Z]).
    + reflexivity.
    + vm_compute. reflexivity.
    + now left.
Defined.

(** The claim as it is written: with the ids of [model.onnx] the pad
    index is 94, and the index 95 of a 96-class array gives a character. *)
Lemma tokenizer_index_95_counterexample :
  get_model_config "model.onnx" = Special /\
  Tokenizer.pad_id (Tokenizer.ids (contains "captcha.onnx" (lower "model.onnx"))) = 94%Z /\
  ZScores.decode
    (ZScores.array [1; 2; 96] (ZScores.peaks 96 95 0 ++ ZScores.peaks 96 1 0))
    "model.onnx" None = Ok "~0" /\
  Tokenizer.decode false [1]%Z = Ok "0".
Proof. repeat split. Qed.



(** ** The last step: from indices to a text *)

Lemma pick_best_score_nonneg (e : string) (texts : list string) (b : string) (s : Z) :
  texts <> [] -> (0 <= snd (Score.pick_best e texts b s))%Z.
Proof.
  intros Hne.
  destruct (ScoreFacts.pick_best_first_max e texts b s)
    as [[Hr Hall]|(pre & post & _ & Hsc & _)].
  - destruct texts as [|t rest]; [congruence|]. apply Forall_inv in Hall.
    rewrite Hr. simpl. pose proof (ScoreFacts.match_score_nonneg t e). lia.
  - rewrite Hsc. apply ScoreFacts.match_score_nonneg.
Qed.

Lemma pick_best_in (e : string) (texts : list string) :
  texts <> [] -> In (fst (Score.pick_best e texts "" (-1)%Z)) texts.
Proof.
  intros Hne.
  destruct (ScoreFacts.pick_best_first_max e texts "" (-1)%Z)
    as [[_ Hall]|(pre & post & Hs & _)].
  - destruct texts as [|t rest]; [congruence|]. apply Forall_inv in Hall.
    pose proof (ScoreFacts.match_score_nonneg t e). lia.
  - rewrite Hs at 2. apply in_or_app. right. now left.
Qed.

Lemma decode_with_length (cs : string) (char_indices : list nat) :
  exists text,
    Score.decode_with cs char_indices = Ok text /\
    String.length text =
    List.length (filter (fun idx => idx <? String.length cs)%nat char_indices).
Proof.
  induction char_indices as [|idx rest (text & IH & Hlen)].
  - exists "". split; reflexivity.
  - cbn [Score.decode_with filter].
    destruct (Nat.ltb_spec idx (String.length cs)) as [Hlt|Hge].
    + destruct (str_at_in_range cs idx Hlt) as (c & _ & ->). cbn [bind].
      rewrite IH. cbn [bind]. eexists. split; [reflexivity|]. simpl. now rewrite Hlen.
    + cbn [bind]. rewrite IH. cbn [bind]. now exists text.
Qed.

Lemma decode_all_lengths (variants : list (string * string)) (char_indices : list nat)
  (n : nat) :
  Forall (fun v => String.length (snd v) = n) variants ->
  exists texts,
    Score.decode_all variants char_indices = Ok texts /\
    List.length texts = List.length variants /\
    Forall (fun t => String.length t =
                     List.length (filter (fun idx => idx <? n)%nat char_indices)) texts.
Proof.
  induction 1 as [|[name cs] rest Hcs _ (texts & IH & Hlen & Hall)].
  - exists []. repeat split. constructor.
  - cbn [Score.decode_all]. simpl in Hcs.
    destruct (decode_with_length cs char_indices) as (t & -> & Ht). cbn [bind].
    rewrite IH. cbn [bind]. exists (t :: texts). split; [reflexivity|].
    split; [simpl; congruence|]. constructor; [now rewrite <- Hcs|assumption].
Qed.

Lemma charset_variants_lengths (char_set : string) :
  Forall (fun v => String.length (snd v) = String.length char_set)
         (Score.charset_variants char_set).
Proof.
  unfold Score.charset_variants.
  destruct (Nat.eqb_spec (String.length char_set) 63) as [->|_];
    [repeat constructor|].
  destruct (Nat.eqb_spec (String.length char_set) 37) as [E|_].
  - constructor; [reflexivity|]. rewrite E. repeat constructor.
  - repeat constructor.
Qed.

Lemma filter_all {A : Type} (f : A -> bool) (l : list A) :
  Forall (fun x => f x = true) l -> filter f l = l.
Proof.
  induction 1 as [|x l Hx _ IH]; simpl; [reflexivity|]. now rewrite Hx, IH.
Qed.

(** With or without a label, the text has one character for each index
    below the size of the character set. *)
Lemma decode_indices_length (char_set : string) (expected_text : option string)
  (char_indices : list nat) :
  exists text,
    Score.decode_indices char_set expected_text char_indices = Ok text /\
    String.length text =
    List.length (filter (fun idx => idx <? String.length char_set)%nat char_indices).
Proof.
  unfold Score.decode_indices.
  destruct (decode_with_length char_set char_indices) as (std & Hstd & Hlen).
  destruct expected_text as [e|]; [|eauto].
  destruct (nonempty e && _); [|eauto].
  destruct (decode_all_lengths (Score.charset_variants char_set) char_indices
              (String.length char_set) (charset_variants_lengths char_set))
    as (texts & -> & Hn & Hall).
  cbn [bind].
  assert (Hne : texts <> []).
  { intros ->. unfold Score.charset_variants in Hn.
    destruct (_ =? 63)%nat; [discriminate|]. destruct (_ =? 37)%nat; discriminate. }
  pose proof (pick_best_score_nonneg e texts "" (-1)%Z Hne) as Hs.
  pose proof (pick_best_in e texts Hne) as Hin.
  destruct (Score.pick_best e texts "" (-1)%Z) as [best_text best_score].
  simpl in Hs, Hin. apply Z.leb_le in Hs. rewrite Hs.
  exists best_text. split; [reflexivity|].
  rewrite Forall_forall in Hall. now apply Hall.
Qed.

(** ** The flat segmented path *)

(** Every configured pair has a non-zero length and a key of [CHAR_SETS]. *)
Lemma dict_get_In {V : Type} (d : list (string * V)) (k : string) (v : V) :
  dict_get d k = Some v -> In (k, v) d.
Proof.
  induction d as [|[k' v'] d IH]; simpl; [discriminate|].
  destruct (String.eqb_spec k' k) as [->|_].
  - intros [= ->]. now left.
  - intros H. right. auto.
Qed.

Lemma known_config_pair (model_filename : string) (seq_len : nat) (key : string) :
  get_model_config model_filename = Known seq_len key ->
  known_pair (Known seq_len key) = Some (seq_len, key) /\
  (4 <= seq_len <= 6)%nat /\
  exists char_set, dict_get CHAR_SETS key = Some char_set /\
                   (11 <= String.length char_set <= 63)%nat.
Proof.
  unfold get_model_config.
  destruct (_ || _ || _ || _); [discriminate|].
  destruct (search_version (lower model_filename)) as [ds|]; [|discriminate].
  destruct (dict_get MODEL_CONFIGS (String "v" ds)) as [[n k]|] eqn:E; [|discriminate].
  intros [= <- <-]. apply dict_get_In in E. simpl in E.
  repeat (destruct E as [E|E];
          [injection E as _ <- <-;
           split; [reflexivity|]; split; [lia|]; eexists; split; [reflexivity|simpl; lia]|]).
  contradiction.
Qed.

Lemma get_length (cs : string) (i : nat) (c : ascii) :
  String.get i cs = Some c -> (i < String.length cs)%nat.
Proof.
  revert i. induction cs as [|a cs IH]; intros i H; simpl in *; [discriminate|].
  destruct i; [lia|]. apply IH in H. lia.
Qed.

Lemma positions_unique_index (cs : string) (i : nat) (c : ascii) :
  positions_unique cs = true -> String.get i cs = Some c -> index_in cs c = Some i.
Proof.
  intros Hu Hget. unfold positions_unique in Hu. rewrite forallb_forall in Hu.
  specialize (Hu i). rewrite Hget in Hu.
  destruct (index_in cs c) as [j|].
  - f_equal. apply Nat.eqb_eq. apply Hu. apply in_seq.
    apply get_length in Hget. lia.
  - discriminate Hu. apply in_seq. apply get_length in Hget. lia.
Qed.

(** No character occurs twice in a character set of the table. *)
Lemma char_sets_unique (key char_set : string) :
  dict_get CHAR_SETS key = Some char_set -> positions_unique char_set = true.
Proof.
  intros H. apply dict_get_In in H. simpl in H.
  repeat (destruct H as [H|H]; [injection H as _ <-; vm_compute; reflexivity|]).
  contradiction.
Qed.

Lemma slice_length {A : Type} (l : list A) (width idx : nat) :
  (width * (idx + 1) <= List.length l)%nat ->
  List.length (slice l (width * idx) (width * (idx + 1))) = width.
Proof.
  intros H. unfold slice. rewrite length_firstn, length_skipn.
  rewrite Nat.mul_add_distr_l, Nat.mul_1_r in *. lia.
Qed.

Lemma resolve_char_set_known (total_size : nat) (f : string) (n : nat)
  (key char_set : string) :
  get_model_config f = Known n key -> dict_get CHAR_SETS key = Some char_set ->
  resolve_char_set total_size f = Ok char_set.
Proof.
  intros Hcfg Hcs. destruct (known_config_pair _ _ _ Hcfg) as (Hpair & _).
  unfold known_pair in Hpair.
  destruct (negb (n =? 0)%nat && nonempty key) eqn:Ht; [|discriminate].
  apply andb_true_iff in Ht as [_ Hk].
  unfold resolve_char_set. now rewrite Hcfg, Hk, Hcs.
Qed.

(** The rows of a reshaped list are its slices. *)
Lemma reshape_rows_from {A : Type} (n_rows n_cols : nat) (l : list A) (k : nat) :
  reshape_rows n_rows n_cols (skipn (n_cols * k) l) =
  map (fun idx => slice l (n_cols * idx) (n_cols * (idx + 1))) (seq k n_rows).
Proof.
  revert k. induction n_rows as [|n IH]; intros k; [reflexivity|].
  cbn [reshape_rows seq map]. f_equal.
  - unfold slice. f_equal. lia.
  - rewrite skipn_skipn. replace (n_cols + n_cols * k)%nat with (n_cols * S k)%nat by lia.
    apply IH.
Qed.

Lemma reshape_rows_slices {A : Type} (n_rows n_cols : nat) (l : list A) :
  reshape_rows n_rows n_cols l =
  map (fun idx => slice l (n_cols * idx) (n_cols * (idx + 1))) (seq 0 n_rows).
Proof.
  rewrite <- (reshape_rows_from n_rows n_cols l 0). now rewrite Nat.mul_0_r.
Qed.

(** Indices below the size of the set are decoded to the characters at
    these positions. *)
Lemma decode_with_chars (cs : string) (char_indices : list nat) (text : string) :
  chars_at cs char_indices = Some text -> Score.decode_with cs char_indices = Ok text.
Proof.
  revert text. induction char_indices as [|i rest IH]; intros text; simpl.
  - now intros [= <-].
  - destruct (String.get i cs) as [c|] eqn:Hget; [|discriminate].
    destruct (chars_at cs rest) as [t|]; [|discriminate].
    intros [= <-]. apply get_length in Hget as Hlt. apply Nat.ltb_lt in Hlt.
    rewrite Hlt. unfold str_at. rewrite Hget. cbn [bind]. rewrite (IH t eq_refl).
    reflexivity.
Qed.

Section FlatFacts.

Context {score : Type}.
Variable score_ltb : score -> score -> bool.
Variable score_zero : score.
Variable softmax : list score -> list score.
Variable score_index : score -> option nat.
Hypothesis softmax_length : forall row, List.length (softmax row) = List.length row.

Lemma segment_argmax_ok (logits : bool) (cls_dim : nat) (flat_output : list score)
  (idx : nat) :
  (0 < cls_dim)%nat -> (cls_dim * (idx + 1) <= List.length flat_output)%nat ->
  exists i, segment_argmax score_ltb softmax logits cls_dim flat_output idx = Ok i /\ (i < cls_dim)%nat.
Proof using softmax_length.
  intros Hpos Hfit. unfold segment_argmax.
  pose proof (slice_length flat_output cls_dim idx Hfit) as Hlen.
  set (segment := slice flat_output (cls_dim * idx) (cls_dim * (idx + 1))) in *.
  assert (Hne : segment <> []) by (intros E; rewrite E in Hlen; simpl in Hlen; lia).
  destruct logits.
  - destruct (softmax_row_ok softmax softmax_length segment Hne) as (-> & Hne' & Hl).
    simpl. destruct (np_argmax_ok score_ltb _ Hne') as (i & Hi & Hlt).
    exists i. split; [assumption|]. lia.
  - destruct (np_argmax_ok score_ltb _ Hne) as (i & Hi & Hlt).
    exists i. split; [assumption|]. lia.
Qed.

(** The loop emits one character for each segment: the argmax of the
    segment is below the size of the set, the character is the one at
    this position, and the characters lead back to the argmax indices. *)
Lemma flat_segments_ok (logits : bool) (char_set : string) (flat_output : list score)
  (idxs : list nat) :
  (0 < String.length char_set)%nat ->
  positions_unique char_set = true ->
  Forall (fun idx => (String.length char_set * (idx + 1) <= List.length flat_output)%nat)
         idxs ->
  exists char_idxs text,
    mapM (segment_argmax score_ltb softmax logits (String.length char_set) flat_output) idxs = Ok char_idxs /\
    flat_segments score_ltb softmax logits char_set (String.length char_set)
      flat_output idxs = Ok text /\
    String.length text = List.length idxs /\
    encode char_set text = Some char_idxs /\
    List.length char_idxs = List.length idxs /\
    Forall (fun i => (i < String.length char_set)%nat) char_idxs /\
    chars_at char_set char_idxs = Some text.
Proof using softmax_length.
  intros Hpos Huniq.
  induction 1 as [|idx rest Hfit _
                    (char_idxs & text & Hm & Hf & Hlen & Henc & Hn & Hlt' & Hat')].
  - exists [], "". repeat split. constructor.
  - destruct (segment_argmax_ok logits _ flat_output idx Hpos Hfit) as (i & Hi & Hlt).
    destruct (str_at_in_range char_set i Hlt) as (c & Hget & Hat).
    exists (i :: char_idxs), (String c text).
    simpl mapM. rewrite Hi. cbn [bind]. rewrite Hm. cbn [bind].
    split; [reflexivity|]. split; [|split; [|split; [|split; [|split]]]].
    + simpl flat_segments. unfold segment_argmax in Hi. rewrite Hi. cbn [bind].
      apply Nat.ltb_lt in Hlt. rewrite Hlt, Hat. cbn [bind]. rewrite Hf. reflexivity.
    + simpl. congruence.
    + simpl. rewrite (positions_unique_index _ _ _ Huniq Hget), Henc. reflexivity.
    + simpl. congruence.
    + constructor; assumption.
    + simpl. now rewrite Hget, Hat'.
Qed.

(** The argmax of the rows of the reshaped row, with the softmax or
    without it, gives the argmax indices of the segments. *)
Lemma rows_of_segments (logits : bool) (cls_dim : nat) (flat_output : list score)
  (idxs : list nat) (char_idxs : list nat) :
  mapM (segment_argmax score_ltb softmax logits cls_dim flat_output) idxs = Ok char_idxs ->
  (reshaped <- softmax_if softmax logits
                 (map (fun idx => slice flat_output (cls_dim * idx) (cls_dim * (idx + 1)))
                      idxs) ;;
   argmax_rows score_ltb reshaped) = Ok char_idxs.
Proof.
  revert char_idxs. unfold argmax_rows, softmax_if, segment_argmax.
  destruct logits.
  - induction idxs as [|idx rest IH]; intros char_idxs; cbn [mapM map bind];
      [trivial|].
    destruct (softmax_row softmax _) as [probs|]; [|discriminate]. cbn [bind].
    destruct (np_argmax score_ltb probs) as [i|] eqn:Hi; [|discriminate]. cbn [bind].
    destruct (mapM _ rest) as [ci|]; [|discriminate]. cbn [bind].
    intros [= <-]. specialize (IH ci eq_refl).
    destruct (mapM (softmax_row softmax) _) as [ps|]; [|discriminate].
    cbn [bind mapM] in *. rewrite Hi. cbn [bind]. now rewrite IH.
  - cbn [bind].
    induction idxs as [|idx rest IH]; intros char_idxs; cbn [mapM map bind];
      [trivial|].
    destruct (np_argmax score_ltb _) as [i|]; [|discriminate]. cbn [bind].
    destruct (mapM _ rest) as [ci|]; [|discriminate]. cbn [bind].
    intros [= <-]. now rewrite (IH ci eq_refl).
Qed.

Local Notation "'postprocess'" :=
  (postprocess_output score_ltb score_zero softmax score_index).

(** The whole function on a v1..v8 model with a configured pair and one
    row of the configured size. *)
Lemma postprocess_flat (output : ndarray score) (model_filename : string)
  (expected_text : option string) (seq_len : nat) (key char_set : string) :
  is_v1_v8_model model_filename = true ->
  get_model_config model_filename = Known seq_len key ->
  dict_get CHAR_SETS key = Some char_set ->
  shape output = [1; seq_len * String.length char_set]%nat ->
  well_formed output ->
  exists min_val char_idxs text,
    np_min score_ltb (flat output) = Ok min_val /\
    segment_argmaxes score_ltb softmax (score_ltb min_val score_zero) (String.length char_set) seq_len
      (flat output) = Ok char_idxs /\
    postprocess output model_filename expected_text = Ok text /\
    String.length text = seq_len /\
    encode char_set text = Some char_idxs /\
    List.length char_idxs = seq_len /\
    Forall (fun i => (i < String.length char_set)%nat) char_idxs /\
    chars_at char_set char_idxs = Some text /\
    flat_segments score_ltb softmax (score_ltb min_val score_zero) char_set
      (String.length char_set) (flat output) (seq 0 seq_len) = Ok text /\
    v1_v8_block score_ltb softmax (score_ltb min_val score_zero) (flat output)
      model_filename = Ok (Some text).
Proof using softmax_length.
  intros Hv Hcfg Hcs Hshape Hwf.
  destruct (known_config_pair _ _ _ Hcfg) as (Hpair & Hseq & cs' & Hcs' & Hlen).
  assert (cs' = char_set) by congruence. subst cs'.
  unfold well_formed in Hwf. rewrite Hshape in Hwf. unfold size_of in Hwf. simpl in Hwf.
  rewrite Nat.mul_1_r, Nat.add_0_r in Hwf.
  assert (Hne : flat output <> []).
  { intros E. rewrite E in Hwf. simpl in Hwf. nia. }
  destruct (np_min_ok score_ltb _ Hne) as [min_val Hmin].
  destruct (flat_segments_ok (score_ltb min_val score_zero) char_set (flat output)
              (seq 0 seq_len))
    as (char_idxs & text & Hm & Hf & Hl & Henc & Hn & Hlt & Hat).
  { lia. }
  { eapply char_sets_unique; eassumption. }
  { apply Forall_forall. intros idx Hin. apply in_seq in Hin. rewrite Hwf. nia. }
  rewrite length_seq in Hl, Hn.
  assert (Hblock : v1_v8_block score_ltb softmax (score_ltb min_val score_zero)
                     (flat output) model_filename = Ok (Some text)).
  { unfold v1_v8_block. rewrite Hv, Hcfg, Hpair.
    unfold dict_item. rewrite Hcs. cbn [bind]. rewrite Hf. reflexivity. }
  exists min_val, char_idxs, text.
  split; [assumption|]. split; [exact Hm|].
  split; [|repeat (split; [assumption|]); assumption].
  unfold postprocess_output. rewrite Hmin. cbn [bind].
  rewrite Hcfg, Hshape. cbn [List.length Nat.eqb andb]. rewrite andb_false_r.
  unfold generic_indices. rewrite Hshape. cbn [Nat.eqb].
  unfold single_row_path. rewrite Hblock. reflexivity.
Qed.

(** The same row with the configured pair of a file name that is not of
    the form [captcha_model_vN.onnx]: the row is reshaped, its rows give
    the argmax indices of the segments, and the indices are read through
    the configured set, or with a label through the variant the scorer
    prefers. *)
Lemma postprocess_row_reshaped (output : ndarray score) (model_filename : string)
  (expected_text : option string) (seq_len : nat) (key char_set : string) :
  is_v1_v8_model model_filename = false ->
  get_model_config model_filename = Known seq_len key ->
  dict_get CHAR_SETS key = Some char_set ->
  shape output = [1; seq_len * String.length char_set]%nat ->
  well_formed output ->
  exists min_val char_idxs text plain,
    np_min score_ltb (flat output) = Ok min_val /\
    segment_argmaxes score_ltb softmax (score_ltb min_val score_zero) (String.length char_set) seq_len
      (flat output) = Ok char_idxs /\
    List.length char_idxs = seq_len /\
    Forall (fun i => (i < String.length char_set)%nat) char_idxs /\
    single_row_path score_ltb softmax score_index (score_ltb min_val score_zero)
      (flat output) model_filename = Ok (Continue char_idxs) /\
    Score.decode_indices char_set expected_text char_idxs = Ok text /\
    postprocess output model_filename expected_text = Ok text /\
    String.length text = seq_len /\
    chars_at char_set char_idxs = Some plain /\
    encode char_set plain = Some char_idxs /\
    (expected_text = None \/ expected_text = Some "" -> text = plain).
Proof using softmax_length.
  intros Hv Hcfg Hcs Hshape Hwf.
  destruct (known_config_pair _ _ _ Hcfg) as (Hpair & Hseq & cs' & Hcs' & Hlen).
  assert (cs' = char_set) by congruence. subst cs'.
  unfold well_formed in Hwf. rewrite Hshape in Hwf. unfold size_of in Hwf. simpl in Hwf.
  rewrite Nat.mul_1_r, Nat.add_0_r in Hwf.
  assert (Hne : flat output <> []).
  { intros E. rewrite E in Hwf. simpl in Hwf. nia. }
  destruct (np_min_ok score_ltb _ Hne) as [min_val Hmin].
  destruct (flat_segments_ok (score_ltb min_val score_zero) char_set (flat output)
              (seq 0 seq_len))
    as (char_idxs & plain & Hm & _ & Hl & Henc & Hn & Hlt & Hat).
  { lia. }
  { eapply char_sets_unique; eassumption. }
  { apply Forall_forall. intros idx Hin. apply in_seq in Hin. rewrite Hwf. nia. }
  rewrite length_seq in Hl, Hn.
  destruct (decode_indices_length char_set expected_text char_idxs)
    as (text & Hdec & Htext).
  rewrite filter_all in Htext
    by (eapply Forall_impl; [|exact Hlt]; intros i Hi; now apply Nat.ltb_lt).
  pose proof (rows_of_segments _ _ _ _ _ Hm) as Hrows.
  rewrite <- reshape_rows_slices in Hrows.
  assert (Hreshape : np_reshape (flat output) seq_len (String.length char_set)
                     = Ok (reshape_rows seq_len (String.length char_set) (flat output))).
  { unfold np_reshape. now rewrite Hwf, Nat.eqb_refl. }
  assert (Hci : char_idxs <> []).
  { intros ->. simpl in Hn. lia. }
  assert (Hpath : single_row_path score_ltb softmax score_index
                    (score_ltb min_val score_zero) (flat output) model_filename
                  = Ok (Continue char_idxs)).
  { unfold single_row_path, v1_v8_block. rewrite Hv. cbn [bind].
    unfold softmax_if in Hrows.
    destruct (score_ltb min_val score_zero).
    - unfold single_row_logits. rewrite Hcfg, Hpair. unfold dict_item. rewrite Hcs.
      cbn [bind fst snd]. rewrite Hreshape. cbn [bind]. rewrite Hrows. reflexivity.
    - unfold single_row_probs. rewrite Hcfg, Hpair. unfold dict_item. rewrite Hcs.
      cbn [bind]. rewrite Hreshape. cbn [bind] in *. rewrite Hrows. reflexivity. }
  exists min_val, char_idxs, text, plain.
  split; [assumption|]. split; [exact Hm|].
  repeat (split; [assumption|]).
  split; [|split; [congruence|split; [assumption|split; [assumption|]]]].
  - unfold postprocess_output. rewrite Hmin. cbn [bind].
    rewrite Hcfg, Hshape. cbn [List.length Nat.eqb andb]. rewrite andb_false_r.
    unfold generic_indices. rewrite Hshape. cbn [Nat.eqb]. rewrite Hpath. cbn [bind].
    destruct char_idxs as [|i rest]; [congruence|]. cbn [bind].
    rewrite (resolve_char_set_known _ _ _ _ _ Hcfg Hcs). cbn [bind]. exact Hdec.
  - intros Hlabel.
    assert (Hplain : Score.decode_indices char_set expected_text char_idxs = Ok plain).
    { destruct Hlabel as [-> | ->]; exact (decode_with_chars _ _ _ Hat). }
    congruence.
Qed.

(** C10.  For a model of [MODEL_CONFIGS] and one row of
    [sequence_length * |charset|] scores, the decoding gives exactly one
    character for each segment: the argmax of every segment is below the
    size of the character set, so the guard on it never fails, and the
    text has [sequence_length] characters.  For a file name of the form
    [captcha_model_vN.onnx] the text is that of the segment loop, whose
    characters stand at the argmax positions of the set; for the other
    names of the configuration the row is reshaped and the argmax indices
    of the segments are decoded by the last step. *)
Theorem flat_segmented_length (output : ndarray score) (model_filename : string)
  (expected_text : option string) (seq_len : nat) (key char_set : string) :
  get_model_config model_filename = Known seq_len key ->
  dict_get CHAR_SETS key = Some char_set ->
  shape output = [1; seq_len * String.length char_set]%nat ->
  well_formed output ->
  exists min_val char_idxs text,
    np_min score_ltb (flat output) = Ok min_val /\
    segment_argmaxes score_ltb softmax (score_ltb min_val score_zero)
      (String.length char_set) seq_len (flat output) = Ok char_idxs /\
    List.length char_idxs = seq_len /\
    Forall (fun i => (i < String.length char_set)%nat) char_idxs /\
    postprocess output model_filename expected_text = Ok text /\
    String.length text = seq_len /\
    if is_v1_v8_model model_filename then
      flat_segments score_ltb softmax (score_ltb min_val score_zero) char_set
        (String.length char_set) (flat output) (seq 0 seq_len) = Ok text /\
      v1_v8_block score_ltb softmax (score_ltb min_val score_zero) (flat output)
        model_filename = Ok (Some text) /\
      chars_at char_set char_idxs = Some text
    else
      single_row_path score_ltb softmax score_index (score_ltb min_val score_zero)
        (flat output) model_filename = Ok (Continue char_idxs) /\
      Score.decode_indices char_set expected_text char_idxs = Ok text.
Proof using softmax_length.
  intros Hcfg Hcs Hshape Hwf.
  destruct (is_v1_v8_model model_filename) eqn:Hv.
  - destruct (postprocess_flat output model_filename expected_text seq_len key char_set
                Hv Hcfg Hcs Hshape Hwf)
      as (min_val & char_idxs & text & Hmin & Hseg & Hpost & Hlen & _ & Hn & Hlt & Hat
          & Hloop & Hblock).
    exists min_val, char_idxs, text.
    repeat (split; [assumption|]). assumption.
  - destruct (postprocess_row_reshaped output model_filename expected_text seq_len key
                char_set Hv Hcfg Hcs Hshape Hwf)
      as (min_val & char_idxs & text & plain & Hmin & Hseg & Hn & Hlt & Hpath & Hdec
          & Hpost & Hlen & _).
    exists min_val, char_idxs, text.
    repeat (split; [assumption|]). assumption.
Qed.


End FlatFacts.

(** ** The generic path *)









Section GenericFacts.

Context {score : Type}.
Variable score_ltb : score -> score -> bool.
Variable score_zero : score.
Variable softmax : list score -> list score.
Variable score_index : score -> option nat.
Hypothesis softmax_length : forall row, List.length (softmax row) = List.length row.




Local Notation "'postprocess'" :=
  (postprocess_output score_ltb score_zero softmax score_index).



End GenericFacts.



(** *** Sizes that are a sequence length times a character-set size *)



Section GenericReshape.

Context {score : Type}.
Variable score_ltb : score -> score -> bool.
Variable score_zero : score.
Variable softmax : list score -> list score.
Variable score_index : score -> option nat.
Hypothesis softmax_length : forall row, List.length (softmax row) = List.length row.

Local Notation "'postprocess'" :=
  (postprocess_output score_ltb score_zero softmax score_index).



End GenericReshape.



Lemma flat_segmented_length_witness :
  exists text,
    ZScores.decode
      (ZScores.array [1; 378] (List.concat (repeat (ZScores.peaks 63 3 1) 6)))
      "captcha_model_v1.onnx" (Some "VXrS4i") = Ok text /\
    String.length text = 6%nat.
Proof.
  destruct (flat_segmented_length
              Z.ltb 0%Z ZScores.softmax_shift ZScores.index_of softmax_shift_length
              (ZScores.array [1; 378] (List.concat (repeat (ZScores.peaks 63 3 1) 6)))
              "captcha_model_v1.onnx" (Some "VXrS4i") 6 "63"
              "abcdefghijklmnopqrstuvwxyzABCDEFGHIJKLMNOPQRSTUVWXYZ0123456789$")
    as (_ & _ & text & _ & _ & _ & _ & Hpost & Hlen & _); try reflexivity.
  exists text. split; assumption.
Defined.



(** * Further properties of the code *)

(** ** The one-row matrix: errors of the size search *)

(** Started with [seq_len] unbound, the search only ever tries the first
    length: a match ends it, a miss reads the unbound variable. *)
Lemma infer_loop_unbound (total_size : nat) :
  Infer.loop total_size Infer.test_seqs Unbound None =
  match Infer.find_char_set total_size 4 CHAR_SETS with
  | Some ks => Ok (Bound (Some 4%nat), Some (4%nat, ks))
  | None => Raise UnboundLocalError
  end.
Proof.
  unfold Infer.test_seqs. cbn [Infer.loop].
  destruct (Infer.find_char_set total_size 4 CHAR_SETS); reflexivity.
Qed.

Lemma find_char_set_4_none (total_size : nat) :
  ~ In total_size [252; 148; 44]%nat ->
  Infer.find_char_set total_size 4 CHAR_SETS = None.
Proof.
  intros Hn. simpl in Hn. unfold CHAR_SETS. cbn [Infer.find_char_set].
  repeat match goal with
         | |- context [(total_size =? ?k)%nat] =>
             destruct (Nat.eqb_spec total_size k) as [E|_];
             [exfalso; apply Hn; simpl in E; lia|]
         end.
  reflexivity.
Qed.

Section OneRowErrors.

Context {score : Type}.
Variable score_ltb : score -> score -> bool.
Variable score_zero : score.
Variable softmax : list score -> list score.
Variable score_index : score -> option nat.

Local Notation "'postprocess'" :=
  (postprocess_output score_ltb score_zero softmax score_index).

Lemma v1_v8_block_no_config (logits : bool) (flat_output : list score)
  (model_filename : string) :
  get_model_config model_filename = NoConfig ->
  v1_v8_block score_ltb softmax logits flat_output model_filename = Ok None.
Proof.
  intros Hcfg. unfold v1_v8_block. rewrite Hcfg.
  now destruct (is_v1_v8_model model_filename).
Qed.

(** The function on a one-row matrix: neither special path applies, and
    the result is that of [single_row_path]. *)
Lemma postprocess_one_row (output : ndarray score) (model_filename : string)
  (expected_text : option string) (n : nat) (min_val : score) :
  shape output = [1; n]%nat ->
  np_min score_ltb (flat output) = Ok min_val ->
  postprocess output model_filename expected_text =
  (fl <- single_row_path score_ltb softmax score_index (score_ltb min_val score_zero)
           (flat output) model_filename ;;
   match fl with
   | Return text => Ok text
   | Continue char_indices =>
       _ <- match char_indices with
            | [] => Raise ValueError
            | _ => Ok tt
            end ;;
       char_set <- resolve_char_set (List.length (flat output)) model_filename ;;
       Score.decode_indices char_set expected_text char_indices
   end).
Proof.
  intros Hshape Hmin. unfold postprocess_output. rewrite Hmin. cbn [bind].
  rewrite Hshape. cbn [List.length Nat.eqb]. rewrite !andb_false_r.
  unfold generic_indices. rewrite Hshape. reflexivity.
Qed.

(** X1.  A one-row matrix with a file name that selects no configuration
    raises [UnboundLocalError] whenever its length is none of 4 * 63,
    4 * 37, 4 * 11, whatever the scores and the label. *)
Theorem one_row_unmatched_size_raises (output : ndarray score)
  (model_filename : string) (expected_text : option string) (n : nat) :
  get_model_config model_filename = NoConfig ->
  shape output = [1; n]%nat ->
  flat output <> [] ->
  ~ In (List.length (flat output)) [252; 148; 44]%nat ->
  postprocess output model_filename expected_text = Raise UnboundLocalError.
Proof.
  intros Hcfg Hshape Hne Hsize.
  destruct (np_min_ok score_ltb _ Hne) as [min_val Hmin].
  rewrite (postprocess_one_row output model_filename expected_text n min_val Hshape Hmin).
  unfold single_row_path. rewrite (v1_v8_block_no_config _ _ _ Hcfg). cbn [bind].
  pose proof (find_char_set_4_none _ Hsize) as Hfind.
  destruct (score_ltb min_val score_zero).
  - unfold single_row_logits. rewrite Hcfg. cbn [known_pair].
    rewrite infer_loop_unbound, Hfind. reflexivity.
  - unfold single_row_probs. rewrite Hcfg. cbn [known_pair].
    rewrite infer_loop_unbound, Hfind. reflexivity.
Qed.

(** X2.  With the file name of a tokenizer model ([model.onnx],
    [captcha.onnx]) a one-row matrix always raises: [KeyError] from the
    lookup of ["captcha.onnx"] in [CHAR_SETS] when the name also has the
    v1..v8 pattern or the scores are probabilities, [UnboundLocalError]
    otherwise. *)
Theorem special_hint_one_row_raises (output : ndarray score)
  (model_filename : string) (expected_text : option string) (n : nat) :
  get_model_config model_filename = Special ->
  shape output = [1; n]%nat ->
  flat output <> [] ->
  exists min_val,
    np_min score_ltb (flat output) = Ok min_val /\
    postprocess output model_filename expected_text =
    Raise (if is_v1_v8_model model_filename || negb (score_ltb min_val score_zero)
           then KeyError else UnboundLocalError).
Proof.
  intros Hcfg Hshape Hne.
  destruct (np_min_ok score_ltb _ Hne) as [min_val Hmin].
  exists min_val. split; [assumption|].
  rewrite (postprocess_one_row output model_filename expected_text n min_val Hshape Hmin).
  unfold single_row_path, v1_v8_block. rewrite Hcfg.
  destruct (is_v1_v8_model model_filename); [reflexivity|]. cbn [bind orb].
  destruct (score_ltb min_val score_zero); cbn [negb].
  - unfold single_row_logits. rewrite Hcfg. reflexivity.
  - unfold single_row_probs. rewrite Hcfg. reflexivity.
Qed.

(** X3.  With a configured pair and a file name without the v1..v8
    pattern, a one-row matrix whose length is not
    [sequence_length * |charset|] raises [ValueError] (from [reshape]). *)
Theorem configured_hint_wrong_size_raises (output : ndarray score)
  (model_filename : string) (expected_text : option string)
  (seq_len : nat) (key char_set : string) (n : nat) :
  is_v1_v8_model model_filename = false ->
  get_model_config model_filename = Known seq_len key ->
  dict_get CHAR_SETS key = Some char_set ->
  shape output = [1; n]%nat ->
  flat output <> [] ->
  List.length (flat output) <> (seq_len * String.length char_set)%nat ->
  postprocess output model_filename expected_text = Raise ValueError.
Proof.
  intros Hv Hcfg Hcs Hshape Hne Hsize.
  destruct (known_config_pair _ _ _ Hcfg) as (Hpair & _).
  destruct (np_min_ok score_ltb _ Hne) as [min_val Hmin].
  rewrite (postprocess_one_row output model_filename expected_text n min_val Hshape Hmin).
  assert (Hreshape : np_reshape (flat output) seq_len (String.length char_set)
                     = Raise ValueError).
  { unfold np_reshape. apply Nat.eqb_neq in Hsize. now rewrite Hsize. }
  unfold single_row_path, v1_v8_block. rewrite Hv. cbn [bind].
  destruct (score_ltb min_val score_zero).
  - unfold single_row_logits. rewrite Hcfg, Hpair. unfold dict_item. rewrite Hcs.
    cbn [bind fst snd]. rewrite Hreshape. reflexivity.
  - unfold single_row_probs. rewrite Hcfg, Hpair. unfold dict_item. rewrite Hcs.
    cbn [bind]. rewrite Hreshape. reflexivity.
Qed.

End OneRowErrors.

Lemma one_row_unmatched_size_raises_witness :
  ZScores.decode (ZScores.array [1; 3] [5; 1; 2]%Z) "foo.onnx" (Some "abc")
  = Raise UnboundLocalError.
Proof.
  apply (one_row_unmatched_size_raises Z.ltb 0%Z ZScores.softmax_shift ZScores.index_of
           (ZScores.array [1; 3] [5; 1; 2]%Z) "foo.onnx" (Some "abc") 3).
  - reflexivity.
  - reflexivity.
  - discriminate.
  - simpl. lia.
Defined.

Lemma special_hint_one_row_raises_witness :
  exists e, ZScores.decode (ZScores.array [1; 3] [5; -1; 2]%Z) "model.onnx" None = Raise e.
Proof.
  destruct (special_hint_one_row_raises Z.ltb 0%Z ZScores.softmax_shift ZScores.index_of
              (ZScores.array [1; 3] [5; -1; 2]%Z) "model.onnx" None 3)
    as (min_val & _ & H).
  - reflexivity.
  - reflexivity.
  - discriminate.
  - eexists. exact H.
Defined.

Lemma configured_hint_wrong_size_raises_witness :
  ZScores.decode (ZScores.array [1; 3] [5; 1; 2]%Z) "model_v2.onnx" None
  = Raise ValueError.
Proof.
  apply (configured_hint_wrong_size_raises Z.ltb 0%Z ZScores.softmax_shift ZScores.index_of
           (ZScores.array [1; 3] [5; 1; 2]%Z) "model_v2.onnx" None 6 "11" "0123456789$" 3).
  - reflexivity.
  - reflexivity.
  - reflexivity.
  - reflexivity.
  - discriminate.
  - simpl. lia.
Defined.

(** ** The segment loop on rows of any length *)

Lemma slice_length_any {A : Type} (l : list A) (width idx : nat) :
  List.length (slice l (width * idx) (width * (idx + 1))) =
  Nat.min width (List.length l - width * idx).
Proof.
  unfold slice. rewrite length_firstn, length_skipn.
  rewrite Nat.mul_add_distr_l, Nat.mul_1_r. f_equal. lia.
Qed.

Section SegmentLoop.

Context {score : Type}.
Variable score_ltb : score -> score -> bool.
Variable score_zero : score.
Variable softmax : list score -> list score.
Variable score_index : score -> option nat.
Hypothesis softmax_length : forall row, List.length (softmax row) = List.length row.

Local Notation "'postprocess'" :=
  (postprocess_output score_ltb score_zero softmax score_index).

(** A segment that starts inside the row gives an index below the width;
    a segment that starts at its end or beyond is empty and raises. *)
Lemma segment_argmax_any (logits : bool) (cls_dim : nat) (flat_output : list score)
  (idx : nat) :
  (0 < cls_dim)%nat ->
  ((cls_dim * idx < List.length flat_output)%nat ->
   exists i, segment_argmax score_ltb softmax logits cls_dim flat_output idx = Ok i /\
             (i < cls_dim)%nat) /\
  ((List.length flat_output <= cls_dim * idx)%nat ->
   segment_argmax score_ltb softmax logits cls_dim flat_output idx = Raise ValueError).
Proof using softmax_length.
  intros Hpos. unfold segment_argmax.
  pose proof (slice_length_any flat_output cls_dim idx) as Hlen.
  set (segment := slice flat_output (cls_dim * idx) (cls_dim * (idx + 1))) in *.
  split.
  - intros Hin.
    assert (Hne : segment <> []) by (intros E; rewrite E in Hlen; simpl in Hlen; lia).
    destruct logits.
    + destruct (softmax_row_ok softmax softmax_length segment Hne) as (-> & Hne' & Hl).
      cbn [bind]. destruct (np_argmax_ok score_ltb _ Hne') as (i & Hi & Hlt).
      exists i. split; [assumption|]. lia.
    + destruct (np_argmax_ok score_ltb _ Hne) as (i & Hi & Hlt).
      exists i. split; [assumption|]. lia.
  - intros Hout.
    assert (E : segment = []).
    { destruct segment; [reflexivity|]. simpl in Hlen. lia. }
    rewrite E. now destruct logits.
Qed.

Lemma flat_segments_step (logits : bool) (char_set : string) (cls_dim : nat)
  (flat_output : list score) (idx : nat) (rest : list nat) :
  flat_segments score_ltb softmax logits char_set cls_dim flat_output (idx :: rest) =
  (char_idx <- segment_argmax score_ltb softmax logits cls_dim flat_output idx ;;
   c <- (if (char_idx <? cls_dim)%nat then str_at char_set char_idx else Ok "") ;;
   text <- flat_segments score_ltb softmax logits char_set cls_dim flat_output rest ;;
   Ok (c ++ text)%string).
Proof. reflexivity. Qed.

Lemma flat_segments_inside (logits : bool) (char_set : string)
  (flat_output : list score) (idxs : list nat) :
  (0 < String.length char_set)%nat ->
  Forall (fun idx => (String.length char_set * idx < List.length flat_output)%nat) idxs ->
  exists text,
    flat_segments score_ltb softmax logits char_set (String.length char_set)
      flat_output idxs = Ok text /\
    String.length text = List.length idxs.
Proof using softmax_length.
  intros Hpos. induction 1 as [|idx rest Hin _ (text & IH & Hlen)].
  - exists "". split; reflexivity.
  - rewrite flat_segments_step.
    destruct (segment_argmax_any logits _ flat_output idx Hpos) as (Hok & _).
    destruct (Hok Hin) as (i & -> & Hlt). cbn [bind].
    destruct (str_at_in_range char_set i Hlt) as (c & _ & Hat).
    apply Nat.ltb_lt in Hlt. rewrite Hlt, Hat. cbn [bind]. rewrite IH. cbn [bind].
    exists (String c text). split; [reflexivity|]. simpl. congruence.
Qed.

Lemma flat_segments_outside (logits : bool) (char_set : string)
  (flat_output : list score) (idxs : list nat) :
  (0 < String.length char_set)%nat ->
  Exists (fun idx => (List.length flat_output <= String.length char_set * idx)%nat) idxs ->
  flat_segments score_ltb softmax logits char_set (String.length char_set)
    flat_output idxs = Raise ValueError.
Proof using softmax_length.
  intros Hpos. induction idxs as [|idx rest IH]; intros Hex.
  - inversion Hex.
  - rewrite flat_segments_step.
    destruct (segment_argmax_any logits _ flat_output idx Hpos) as (Hok & Hraise).
    destruct (Nat.le_gt_cases (List.length flat_output) (String.length char_set * idx))
      as [Hout|Hin].
    + now rewrite (Hraise Hout).
    + destruct (Hok Hin) as (i & -> & Hlt). cbn [bind].
      destruct (str_at_in_range char_set i Hlt) as (c & _ & Hat).
      apply Nat.ltb_lt in Hlt. rewrite Hlt, Hat. cbn [bind].
      rewrite IH; [reflexivity|].
      inversion Hex as [? ? Hhead|? ? Htail]; subst; [lia|assumption].
Qed.

(** X4.  For a v1..v8 model with a configured pair, a row that reaches
    into the last segment is decoded to exactly [sequence_length]
    characters, a short last segment and scores beyond the last segment
    making no difference; a row that ends before the last segment raises
    [ValueError]. *)
Theorem flat_segmented_row_bounds (output : ndarray score) (model_filename : string)
  (expected_text : option string) (seq_len : nat) (key char_set : string) (n : nat) :
  is_v1_v8_model model_filename = true ->
  get_model_config model_filename = Known seq_len key ->
  dict_get CHAR_SETS key = Some char_set ->
  shape output = [1; n]%nat ->
  flat output <> [] ->
  ((String.length char_set * (seq_len - 1) < List.length (flat output))%nat ->
   exists text,
     postprocess output model_filename expected_text = Ok text /\
     String.length text = seq_len) /\
  ((List.length (flat output) <= String.length char_set * (seq_len - 1))%nat ->
   postprocess output model_filename expected_text = Raise ValueError).
Proof using softmax_length.
  intros Hv Hcfg Hcs Hshape Hne.
  destruct (known_config_pair _ _ _ Hcfg) as (Hpair & Hseq & cs' & Hcs' & Hlen).
  assert (cs' = char_set) by congruence. subst cs'.
  destruct (np_min_ok score_ltb _ Hne) as [min_val Hmin].
  assert (Hpos : (0 < String.length char_set)%nat) by lia.
  assert (Hpost : postprocess output model_filename expected_text =
                  flat_segments score_ltb softmax (score_ltb min_val score_zero) char_set
                    (String.length char_set) (flat output) (seq 0 seq_len)).
  { rewrite (postprocess_one_row score_ltb score_zero softmax score_index
               output model_filename expected_text n min_val Hshape Hmin).
    unfold single_row_path, v1_v8_block. rewrite Hv, Hcfg, Hpair.
    unfold dict_item. rewrite Hcs. cbn [bind].
    destruct (flat_segments _ _ _ _ _ _ _); reflexivity. }
  rewrite Hpost. split.
  - intros Hlong.
    destruct (flat_segments_inside (score_ltb min_val score_zero) char_set (flat output)
                (seq 0 seq_len) Hpos) as (text & Hf & Hl).
    { apply Forall_forall. intros idx Hin. apply in_seq in Hin.
      assert (String.length char_set * idx <= String.length char_set * (seq_len - 1))%nat
        by (apply Nat.mul_le_mono_l; lia).
      lia. }
    exists text. split; [assumption|]. now rewrite Hl, length_seq.
  - intros Hshort.
    apply flat_segments_outside; [assumption|].
    apply Exists_exists. exists (seq_len - 1)%nat. split; [|assumption].
    apply in_seq. lia.
Qed.

End SegmentLoop.

Lemma flat_segmented_row_bounds_witness :
  (exists text,
     ZScores.decode
       (ZScores.array [1; 60] (List.concat (repeat (ZScores.peaks 12 3 1) 5)))
       "captcha_model_v7.onnx" None = Ok text /\ String.length text = 6%nat) /\
  ZScores.decode
    (ZScores.array [1; 55] (List.concat (repeat (ZScores.peaks 11 3 1) 5)))
    "captcha_model_v7.onnx" None = Raise ValueError.
Proof.
  split.
  - destruct (flat_segmented_row_bounds
                Z.ltb 0%Z ZScores.softmax_shift ZScores.index_of softmax_shift_length
                (ZScores.array [1; 60] (List.concat (repeat (ZScores.peaks 12 3 1) 5)))
                "captcha_model_v7.onnx" None 6 "11" "0123456789$" 60) as [Hlong _].
    + reflexivity.
    + reflexivity.
    + reflexivity.
    + reflexivity.
    + discriminate.
    + apply Hlong. simpl. lia.
  - destruct (flat_segmented_row_bounds
                Z.ltb 0%Z ZScores.softmax_shift ZScores.index_of softmax_shift_length
                (ZScores.array [1; 55] (List.concat (repeat (ZScores.peaks 11 3 1) 5)))
                "captcha_model_v7.onnx" None 6 "11" "0123456789$" 55) as [_ Hshort].
    + reflexivity.
    + reflexivity.
    + reflexivity.
    + reflexivity.
    + discriminate.
    + apply Hshort. simpl. lia.
Defined.

(** ** Scores are never read as indices *)

Section NeverIndices.

Context {score : Type}.
Variable score_ltb : score -> score -> bool.
Variable score_zero : score.
Variable softmax : list score -> list score.

(** On one row of probabilities [char_indices] is set whenever nothing is
    raised. *)
Lemma single_row_probs_sets_indices (flat_output : list score) (model_filename : string)
  (r : option (list nat)) :
  single_row_probs score_ltb flat_output model_filename = Ok r ->
  exists char_indices, r = Some char_indices.
Proof.
  unfold single_row_probs.
  assert (Hknown : forall seq_len key,
             (char_set <- dict_item CHAR_SETS key ;;
              reshaped <- np_reshape flat_output seq_len (String.length char_set) ;;
              char_indices <- argmax_rows score_ltb reshaped ;;
              Ok (Some char_indices)) = Ok r ->
             exists char_indices, r = Some char_indices).
  { intros seq_len key H.
    destruct (dict_item CHAR_SETS key) as [cs|]; [|discriminate]. cbn [bind] in H.
    destruct (np_reshape _ _ _) as [rows|]; [|discriminate]. cbn [bind] in H.
    destruct (argmax_rows _ _) as [ci|]; [|discriminate]. cbn [bind] in H.
    injection H as <-. eauto. }
  assert (Hinfer :
            (st <- Infer.loop (List.length flat_output) Infer.test_seqs Unbound None ;;
             inferred <-
               match snd st with
               | Some (seq_len, (_, test_set)) =>
                   reshaped <- np_reshape flat_output seq_len (String.length test_set) ;;
                   char_indices <- argmax_rows score_ltb reshaped ;;
                   Ok (Some char_indices)
               | None => Ok None
               end ;;
             v <- read (fst st) ;;
             if negb (truthy v) then
               fb <- reshape_fallback score_ltb flat_output ;;
               Ok (match fb with Some ci => Some ci | None => inferred end)
             else Ok inferred) = Ok r ->
            exists char_indices, r = Some char_indices).
  { rewrite infer_loop_unbound.
    destruct (Infer.find_char_set _ 4 CHAR_SETS) as [[k cs]|]; [|discriminate].
    cbn [bind fst snd]. intros H.
    destruct (np_reshape _ _ _) as [rows|]; [|discriminate]. cbn [bind] in H.
    destruct (argmax_rows _ _) as [ci|]; [|discriminate].
    cbn [bind read truthy Nat.eqb negb] in H. injection H as <-. eauto. }
  destruct (get_model_config model_filename) as [|seq_len key|].
  - discriminate.
  - destruct (known_pair (Known seq_len key)) as [[n k]|]; [apply Hknown|apply Hinfer].
  - cbn [known_pair]. apply Hinfer.
Qed.

(** X6.  The branch that would take whole non-negative scores as the
    indices themselves is never reached: the result does not depend on
    how scores are read as indices. *)
Theorem scores_are_never_read_as_indices
  (score_index score_index' : score -> option nat)
  (output : ndarray score) (model_filename : string) (expected_text : option string) :
  postprocess_output score_ltb score_zero softmax score_index
    output model_filename expected_text =
  postprocess_output score_ltb score_zero softmax score_index'
    output model_filename expected_text.
Proof.
  assert (Hrow : forall logits flat_output,
             single_row_path score_ltb softmax score_index logits flat_output model_filename =
             single_row_path score_ltb softmax score_index' logits flat_output
               model_filename).
  { intros logits flat_output. unfold single_row_path.
    destruct (v1_v8_block _ _ _ _ _) as [[text|]|]; try reflexivity. cbn [bind].
    destruct logits.
    - destruct (single_row_logits _ _ _ _); reflexivity.
    - destruct (single_row_probs score_ltb flat_output model_filename) as [r|] eqn:E;
        [|reflexivity].
      destruct (single_row_probs_sets_indices _ _ _ E) as [ci ->]. reflexivity. }
  unfold postprocess_output.
  destruct (np_min score_ltb (flat output)) as [min_val|]; [|reflexivity]. cbn [bind].
  assert (Hgen : generic_indices score_ltb softmax score_index
                   (score_ltb min_val score_zero) output model_filename =
                 generic_indices score_ltb softmax score_index'
                   (score_ltb min_val score_zero) output model_filename).
  { unfold generic_indices.
    destruct (shape output) as [|d0 [|d1 [|d2 [|]]]]; try reflexivity.
    destruct (d0 =? 1)%nat; [apply Hrow|reflexivity]. }
  now rewrite Hgen.
Qed.

End NeverIndices.

(** ** The two searches over sizes *)

(** The inner loop stops at the first set of the table whose size fits. *)
Lemma find_char_set_first (total_size test_seq : nat) (sets : list (string * string))
  (key char_set : string) :
  Infer.find_char_set total_size test_seq sets = Some (key, char_set) ->
  exists before after,
    sets = before ++ (key, char_set) :: after /\
    total_size = (test_seq * String.length char_set)%nat /\
    Forall (fun kc => total_size <> (test_seq * String.length (snd kc))%nat) before.
Proof.
  induction sets as [|[k cs] sets IH]; simpl; [discriminate|].
  destruct (Nat.eqb_spec total_size (test_seq * String.length cs)) as [E|Hne].
  - intros [= <- <-]. exists [], sets. repeat split; [assumption|constructor].
  - intros H. destruct (IH H) as (before & after & -> & Ht & Hall).
    exists ((k, cs) :: before), after. repeat split; [assumption|].
    constructor; assumption.
Qed.

Lemma find_char_set_none (total_size test_seq : nat) (sets : list (string * string)) :
  Infer.find_char_set total_size test_seq sets = None ->
  forall kc, In kc sets -> total_size <> (test_seq * String.length (snd kc))%nat.
Proof.
  induction sets as [|[k cs] sets IH]; simpl; [contradiction|].
  destruct (Nat.eqb_spec total_size (test_seq * String.length cs)) as [E|Hne];
    [discriminate|].
  intros H kc [<-|Hin]; [assumption|exact (IH H kc Hin)].
Qed.

(** The search that starts with [seq_len = None] stops at the first
    length for which a set fits, or finds nothing. *)
Lemma infer_loop_from_none (total_size : nat) (test_seqs : list nat) :
  Forall (fun s => s <> 0%nat) test_seqs ->
  (Infer.loop total_size test_seqs (Bound None) None = Ok (Bound None, None) /\
   Forall (fun s => Infer.find_char_set total_size s CHAR_SETS = None) test_seqs) \/
  (exists s ks earlier later,
      Infer.loop total_size test_seqs (Bound None) None
        = Ok (Bound (Some s), Some (s, ks)) /\
      test_seqs = earlier ++ s :: later /\
      Infer.find_char_set total_size s CHAR_SETS = Some ks /\
      Forall (fun s' => Infer.find_char_set total_size s' CHAR_SETS = None) earlier).
Proof.
  induction 1 as [|s rest Hs _ IH].
  - left. split; [reflexivity|constructor].
  - cbn [Infer.loop].
    destruct (Infer.find_char_set total_size s CHAR_SETS) as [ks|] eqn:E.
    + right. exists s, ks, [], rest. cbn [fst snd read bind truthy].
      apply Nat.eqb_neq in Hs. rewrite Hs. simpl. repeat split; [assumption|constructor].
    + cbn [fst snd read bind truthy].
      destruct IH as [[Hl Hall]|(s' & ks & earlier & later & Hl & -> & Hf & Hall)].
      * left. split; [assumption|]. constructor; assumption.
      * right. exists s', ks, (s :: earlier), later.
        repeat split; try assumption. constructor; assumption.
Qed.

(** X7.  The character set is always resolved, for every file name and
    size; this step never raises.  For a tokenizer name it is the set
    ["63"]; for a name with an entry of [MODEL_CONFIGS], the set of that
    entry; without a configuration, the first set of the table whose size
    times the first length of 4..8 that any set fits gives the number of
    scores, and the set ["63"] when no length and no set fit. *)
Theorem char_set_is_always_resolved (total_size : nat) (model_filename : string) :
  match get_model_config model_filename with
  | Special =>
      dict_get CHAR_SETS "63" =
        Some "abcdefghijklmnopqrstuvwxyzABCDEFGHIJKLMNOPQRSTUVWXYZ0123456789$" /\
      resolve_char_set total_size model_filename =
        Ok "abcdefghijklmnopqrstuvwxyzABCDEFGHIJKLMNOPQRSTUVWXYZ0123456789$"
  | Known _ key =>
      exists char_set,
        dict_get CHAR_SETS key = Some char_set /\
        resolve_char_set total_size model_filename = Ok char_set
  | NoConfig =>
      (exists test_seq key char_set earlier later before after,
          Infer.test_seqs = earlier ++ test_seq :: later /\
          CHAR_SETS = before ++ (key, char_set) :: after /\
          total_size = (test_seq * String.length char_set)%nat /\
          Forall (fun kc => total_size <> (test_seq * String.length (snd kc))%nat)
                 before /\
          Forall (fun s => forall kc, In kc CHAR_SETS ->
                                      total_size <> (s * String.length (snd kc))%nat)
                 earlier /\
          resolve_char_set total_size model_filename = Ok char_set) \/
      ((forall s kc, In s Infer.test_seqs -> In kc CHAR_SETS ->
                     total_size <> (s * String.length (snd kc))%nat) /\
       dict_get CHAR_SETS "63" =
         Some "abcdefghijklmnopqrstuvwxyzABCDEFGHIJKLMNOPQRSTUVWXYZ0123456789$" /\
       resolve_char_set total_size model_filename =
         Ok "abcdefghijklmnopqrstuvwxyzABCDEFGHIJKLMNOPQRSTUVWXYZ0123456789$")
  end.
Proof.
  destruct (get_model_config model_filename) as [|seq_len key|] eqn:Hcfg.
  - split; [reflexivity|]. unfold resolve_char_set. now rewrite Hcfg.
  - destruct (known_config_pair _ _ _ Hcfg) as (_ & _ & cs & Hcs & _).
    exists cs. split; [assumption|]. now apply (resolve_char_set_known _ _ seq_len key).
  - unfold resolve_char_set. rewrite Hcfg. cbn iota.
    destruct (infer_loop_from_none total_size Infer.test_seqs)
      as [[-> Hall]|(s & [k cs] & earlier & later & -> & Hsplit & Hfind & Hearlier)];
      [repeat constructor; discriminate| |].
    + right. split; [|split; reflexivity].
      intros s kc Hs Hk. rewrite Forall_forall in Hall.
      exact (find_char_set_none _ _ _ (Hall s Hs) kc Hk).
    + left. cbn [bind fst snd read truthy].
      assert (Hs : (s =? 0)%nat = false).
      { apply Nat.eqb_neq. intros ->.
        assert (Hin : In 0%nat Infer.test_seqs) by (rewrite Hsplit; apply in_elt).
        simpl in Hin. lia. }
      rewrite Hs. cbn [negb].
      destruct (find_char_set_first _ _ _ _ _ Hfind) as (before & after & Hc & Ht & Hb).
      exists s, k, cs, earlier, later, before, after.
      repeat (split; [assumption|]). split; [|reflexivity].
      eapply Forall_impl; [|exact Hearlier].
      intros s' Hnone. exact (find_char_set_none _ _ _ Hnone).
Qed.

Lemma first_divisor_check (total_size seq_len n : nat) :
  seq_len <> 0%nat -> (0 < n)%nat -> total_size = (seq_len * n)%nat ->
  ((0 <? total_size / seq_len) && (total_size =? seq_len * (total_size / seq_len)))%nat
  = true.
Proof.
  intros Hs Hn ->. rewrite Nat.mul_comm, Nat.div_mul by assumption.
  apply andb_true_iff. split; [now apply Nat.ltb_lt|]. apply Nat.eqb_eq. lia.
Qed.

Lemma first_divisor_first (total_size : nat) (seq_lens : list nat) :
  Forall (fun s => s <> 0%nat) seq_lens ->
  match Infer.first_divisor total_size seq_lens with
  | Some (seq_len, num_classes) =>
      (0 < num_classes)%nat /\ total_size = (seq_len * num_classes)%nat /\
      exists before after,
        seq_lens = before ++ seq_len :: after /\
        Forall (fun s => forall n, (0 < n)%nat -> total_size <> (s * n)%nat) before
  | None =>
      Forall (fun s => forall n, (0 < n)%nat -> total_size <> (s * n)%nat) seq_lens
  end.
Proof.
  induction 1 as [|s rest Hs _ IH]; simpl; [constructor|].
  destruct ((0 <? total_size / s)%nat && (total_size =? s * (total_size / s))%nat) eqn:E.
  - apply andb_true_iff in E as [H1 H2].
    apply Nat.ltb_lt in H1. apply Nat.eqb_eq in H2.
    split; [assumption|]. split; [assumption|]. exists [], rest. split; [reflexivity|constructor].
  - assert (Hno : forall n, (0 < n)%nat -> total_size <> (s * n)%nat).
    { intros n Hn Heq. rewrite (first_divisor_check total_size s n Hs Hn Heq) in E.
      discriminate. }
    destruct (Infer.first_divisor total_size rest) as [[seq_len num_classes]|].
    + destruct IH as (Hpos & Heq & before & after & -> & Hall).
      split; [assumption|]. split; [assumption|].
      exists (s :: before), after. split; [reflexivity|]. constructor; assumption.
    + constructor; assumption.
Qed.

(** X8.  The reshaping of an array of one dimension, or of more than
    three, takes the first length of 4..10 that divides the number of
    scores with a quotient above zero, and gives up only when none of
    them does. *)
Theorem fallback_takes_first_dividing_length (total_size : nat) :
  match Infer.first_divisor total_size Infer.fallback_seq_lens with
  | Some (seq_len, num_classes) =>
      (0 < num_classes)%nat /\ total_size = (seq_len * num_classes)%nat /\
      exists before after,
        [4; 5; 6; 7; 8; 9; 10]%nat = before ++ seq_len :: after /\
        Forall (fun s => forall n, (0 < n)%nat -> total_size <> (s * n)%nat) before
  | None =>
      forall s n, (4 <= s <= 10)%nat -> (0 < n)%nat -> total_size <> (s * n)%nat
  end.
Proof.
  pose proof (first_divisor_first total_size Infer.fallback_seq_lens) as H.
  destruct (Infer.first_divisor total_size Infer.fallback_seq_lens) as [[s n]|].
  - apply H. repeat constructor; discriminate.
  - intros s n Hs Hn.
    assert (Hin : In s Infer.fallback_seq_lens) by (simpl; lia).
    assert (Hall := H ltac:(repeat constructor; discriminate)).
    rewrite Forall_forall in Hall. now apply Hall.
Qed.

Lemma fallback_takes_first_dividing_length_witness :
  Infer.first_divisor 21 Infer.fallback_seq_lens = Some (7, 3)%nat /\
  (forall n, (0 < n)%nat -> 21 <> 4 * n)%nat.
Proof.
  pose proof (fallback_takes_first_dividing_length 21) as H.
  change (Infer.first_divisor 21 Infer.fallback_seq_lens) with (Some (7, 3)%nat) in H.
  destruct H as (_ & _ & before & after & Hsplit & Hall).
  split; [reflexivity|].
  destruct before as [|s before]; [discriminate Hsplit|].
  injection Hsplit as <- _. now inversion Hall.
Defined.

Lemma char_set_is_always_resolved_witness :
  resolve_char_set 5 "captcha.onnx" =
  Ok "abcdefghijklmnopqrstuvwxyzABCDEFGHIJKLMNOPQRSTUVWXYZ0123456789$".
Proof.
  exact (proj2 (char_set_is_always_resolved 5 "captcha.onnx")).
Defined.

(** ** The tokenizer format, from a text and back *)

Lemma index_in_get (cs : string) (c : ascii) (i : nat) :
  index_in cs c = Some i -> String.get i cs = Some c.
Proof.
  revert i. induction cs as [|a cs IH]; intros i; simpl; [discriminate|].
  destruct (Ascii.eqb_spec a c) as [->|_].
  - intros [= <-]. reflexivity.
  - destruct (index_in cs c) as [j|]; simpl; [|discriminate].
    intros [= <-]. now apply IH.
Qed.

Lemma tokenizer_emit_charset (captcha : bool) (i : nat) (c : ascii) :
  String.get i (Tokenizer.charset (Tokenizer.ids captcha)) = Some c ->
  Tokenizer.emit captcha (Z.of_nat i + 1) = Ok (String c EmptyString).
Proof.
  intros Hget. pose proof (get_length _ _ _ Hget) as Hlen.
  assert (Hsp : Tokenizer.is_special (Tokenizer.ids captcha) (Z.of_nat i + 1) = false).
  { destruct (Tokenizer.is_special (Tokenizer.ids captcha) (Z.of_nat i + 1)) eqn:E;
      [|reflexivity].
    apply TokenizerFacts.is_special_values in E. destruct captcha.
    - change (String.length (Tokenizer.charset (Tokenizer.ids true))) with 62%nat in Hlen.
      lia.
    - change (String.length (Tokenizer.charset (Tokenizer.ids false))) with 63%nat in Hlen.
      lia. }
  unfold Tokenizer.emit. destruct captcha; cbn [Tokenizer.ids] in *; rewrite Hsp.
  - change (String.length (Tokenizer.charset Tokenizer.captcha_ids)) with 62%nat in Hlen.
    assert (Hr : ((Tokenizer.charset_start <=? Z.of_nat i + 1) &&
                  (Z.of_nat i + 1 <=? Tokenizer.charset_end))%Z = true).
    { apply andb_true_iff. split; apply Z.leb_le.
      - unfold Tokenizer.charset_start. lia.
      - change Tokenizer.charset_end with 62%Z. lia. }
    rewrite Hr. unfold Tokenizer.charset_start.
    replace (Z.to_nat (Z.of_nat i + 1 - 1)) with i by lia.
    unfold str_at. now rewrite Hget.
  - change (String.length (Tokenizer.charset Tokenizer.other_ids)) with 63%nat in Hlen.
    assert (Hr : ((1 <=? Z.of_nat i + 1) &&
                  (Z.of_nat i + 1 <=? Tokenizer.len (Tokenizer.charset Tokenizer.other_ids)))%Z
                 = true).
    { apply andb_true_iff. split; apply Z.leb_le; [lia|].
      change (Tokenizer.len (Tokenizer.charset Tokenizer.other_ids)) with 63%Z. lia. }
    rewrite Hr.
    replace (Z.to_nat (Z.of_nat i + 1 - 1)) with i by lia.
    unfold str_at. now rewrite Hget.
Qed.

Lemma tokenizer_decode_ids (captcha : bool) (text : string) :
  forall ids, token_ids_of (Tokenizer.charset (Tokenizer.ids captcha)) text = Some ids ->
              Tokenizer.decode captcha ids = Ok text.
Proof.
  induction text as [|c text IH]; intros ids; simpl.
  - intros [= <-]. reflexivity.
  - destruct (index_in (Tokenizer.charset (Tokenizer.ids captcha)) c) as [i|] eqn:Hi;
      [|discriminate].
    destruct (token_ids_of (Tokenizer.charset (Tokenizer.ids captcha)) text) as [rest|];
      [|discriminate].
    intros [= <-]. cbn [Tokenizer.decode].
    assert (Hne : (Z.of_nat i + 1 =? Tokenizer.eos_id)%Z = false).
    { apply Z.eqb_neq. unfold Tokenizer.eos_id. lia. }
    rewrite Hne, (tokenizer_emit_charset captcha i c (index_in_get _ _ _ Hi)).
    cbn [bind]. rewrite (IH rest eq_refl). reflexivity.
Qed.

(** X9.  Round trip of the tokenizer format: the ids of a text over the
    charset (position plus one), closed by [[E]] and followed by anything,
    decode to the text, for both branches of the decoder. *)
Theorem tokenizer_round_trip (captcha : bool) (text : string) (ids after : list Z) :
  token_ids_of (Tokenizer.charset (Tokenizer.ids captcha)) text = Some ids ->
  Tokenizer.decode captcha (ids ++ Tokenizer.eos_id :: after) = Ok text.
Proof.
  intros H. rewrite TokenizerFacts.decode_stops_at_eos.
  now apply tokenizer_decode_ids.
Qed.

Lemma tokenizer_round_trip_witness :
  Tokenizer.decode false ([8; 37; 3; 63]%Z ++ Tokenizer.eos_id :: [5; 5]%Z) = Ok "7A2$".
Proof.
  apply (tokenizer_round_trip false "7A2$" [8; 37; 3; 63]%Z [5; 5]%Z).
  reflexivity.
Defined.

(** ** The alphabet of the tokenizer decoder *)

Lemma all_chars_weaken (P Q : ascii -> bool) (s : string) :
  (forall c, P c = true -> Q c = true) ->
  all_chars P s = true -> all_chars Q s = true.
Proof.
  intros HPQ. induction s as [|c s IH]; simpl; [reflexivity|].
  intros H. apply andb_true_iff in H as [Hc Hs].
  now rewrite (HPQ c Hc), IH.
Qed.

Lemma char_in_get (cs : string) (i : nat) (c : ascii) :
  String.get i cs = Some c -> char_in cs c = true.
Proof.
  revert i. induction cs as [|a cs IH]; intros i H; simpl in *; [discriminate|].
  destruct i as [|i].
  - injection H as ->. now rewrite Ascii.eqb_refl.
  - rewrite (IH i H). apply orb_true_r.
Qed.

Lemma chr_graphic (code : Z) :
  (33 <= code <= 126)%Z -> all_chars is_graphic (chr code) = true.
Proof.
  intros Hr. unfold chr, is_graphic. simpl. rewrite andb_true_r.
  rewrite N_ascii_embedding by lia.
  apply andb_true_iff. split; apply N.leb_le; lia.
Qed.

(** What one index appends: nothing or one character; a printable one
    that is no space; for [captcha.onnx] one of the 62 of its charset. *)
Lemma tokenizer_emit_alphabet (captcha : bool) (idx : Z) :
  exists s,
    Tokenizer.emit captcha idx = Ok s /\ (String.length s <= 1)%nat /\
    all_chars is_graphic s = true /\
    (captcha = true -> all_chars (char_in Tokenizer.charset_captcha_onnx) s = true).
Proof.
  unfold Tokenizer.emit. destruct captcha.
  - destruct (Tokenizer.is_special Tokenizer.captcha_ids idx);
      [exists ""; repeat split; simpl; lia|].
    destruct ((Tokenizer.charset_start <=? idx) && (idx <=? Tokenizer.charset_end))%Z eqn:Hr.
    + apply andb_true_iff in Hr as [H1 H2].
      apply Z.leb_le in H1, H2. unfold Tokenizer.charset_start in *.
      change Tokenizer.charset_end with 62%Z in H2.
      destruct (str_at_in_range (Tokenizer.charset Tokenizer.captcha_ids)
                  (Z.to_nat (idx - 1))) as (c & Hget & ->).
      { change (String.length (Tokenizer.charset Tokenizer.captcha_ids)) with 62%nat. lia. }
      eexists. split; [reflexivity|]. split; [simpl; lia|]. simpl. rewrite !andb_true_r.
      split.
      * exact (all_chars_get is_graphic (Tokenizer.charset Tokenizer.captcha_ids)
                 _ _ eq_refl Hget).
      * intros _. exact (char_in_get _ _ _ Hget).
    + destruct (Tokenizer.pad_id Tokenizer.captcha_ids <? idx)%Z;
        exists ""; repeat split; simpl; lia.
  - destruct (Tokenizer.is_special Tokenizer.other_ids idx);
      [exists ""; repeat split; simpl; try lia; discriminate|].
    destruct TokenizerFacts.other_ids_values as (_ & _ & _ & -> & ->).
    destruct ((1 <=? idx) && (idx <=? 63))%Z eqn:Hr.
    + apply andb_true_iff in Hr as [H1 H2]. apply Z.leb_le in H1, H2.
      destruct (str_at_in_range Tokenizer.charset_digits_first
                  (Z.to_nat (idx - 1))) as (c & Hget & ->).
      { change (String.length Tokenizer.charset_digits_first) with 63%nat. lia. }
      eexists. split; [reflexivity|]. split; [simpl; lia|]. simpl. rewrite !andb_true_r.
      split; [|discriminate].
      exact (all_chars_get is_graphic Tokenizer.charset_digits_first _ _ eq_refl Hget).
    + destruct (1 <=? Tokenizer.charset_size)%Z;
        [|exists ""; repeat split; simpl; try lia; discriminate].
      destruct ((32 <=? 32 + idx - 1) && (32 + idx - 1 <=? 126))%Z eqn:Ha;
        [|exists ""; repeat split; simpl; try lia; discriminate].
      destruct (negb (32 + idx - 1 =? 32)%Z) eqn:Hs;
        [|exists ""; repeat split; simpl; try lia; discriminate].
      apply andb_true_iff in Ha as [H1 H2]. apply Z.leb_le in H1, H2.
      apply negb_true_iff, Z.eqb_neq in Hs.
      eexists. split; [reflexivity|]. split; [simpl; lia|].
      split; [|discriminate]. apply chr_graphic. lia.
Qed.

Lemma length_append (a b : string) :
  String.length (a ++ b) = (String.length a + String.length b)%nat.
Proof. induction a; simpl; [reflexivity|]. now rewrite IHa. Qed.

(** X10.  The tokenizer decoder never raises; its text has at most one
    character for each index before the first [[E]], holds only printable
    characters other than the space, and for [captcha.onnx] only the 62
    letters and digits of its charset: there the indices 66..94 of the 95
    classes give nothing. *)
Theorem tokenizer_text_alphabet (captcha : bool) (char_indices : list Z) :
  exists text,
    Tokenizer.decode captcha char_indices = Ok text /\
    (String.length text <= List.length (TokenizerSpec.before_eos char_indices))%nat /\
    all_chars is_graphic text = true /\
    (if captcha then all_chars (char_in Tokenizer.charset_captcha_onnx) text = true
     else True).
Proof.
  induction char_indices as [|idx rest (text & IH & Hlen & Hg & Hc)].
  - exists "". repeat split; simpl; [lia|]. now destruct captcha.
  - cbn [Tokenizer.decode TokenizerSpec.before_eos].
    destruct (idx =? Tokenizer.eos_id)%Z.
    + exists "". repeat split; simpl; [lia|]. now destruct captcha.
    + destruct (tokenizer_emit_alphabet captcha idx) as (s & -> & Hs & Hsg & Hsc).
      rewrite IH. cbn [bind]. eexists. split; [reflexivity|].
      rewrite length_append, !all_chars_append, Hsg, Hg. cbn [List.length].
      split; [lia|]. split; [reflexivity|].
      destruct captcha; [|exact I]. now rewrite Hsc, Hc.
Qed.

(** ** The CTC loop and the usual CTC reduction *)

Lemma ctc_collapse_dedup (m : Ctc.mapping) (l : list Z) :
  Forall (fun x => 0 <= x)%Z l ->
  forall prev,
    prev = (-1)%Z \/ (prev <> Ctc.blank_id m /\ (0 <= prev)%Z) ->
    Ctc.collapse m prev l =
    join (map (Ctc.emit m)
            (filter (fun x => negb (x =? Ctc.blank_id m)%Z)
               (CtcTextbook.dedup_from
                  (if (prev =? -1)%Z then Ctc.blank_id m else prev) l))).
Proof.
  induction 1 as [|x l Hx _ IH]; intros prev Hprev; [reflexivity|].
  cbn [Ctc.collapse CtcTextbook.dedup_from].
  destruct (Z.eqb_spec x (Ctc.blank_id m)) as [->|Hb].
  - rewrite (IH (-1)%Z) by now left. cbn [Z.eqb Pos.eqb].
    destruct (Z.eqb_spec (Ctc.blank_id m) (if (prev =? -1)%Z then Ctc.blank_id m else prev))
      as [E|_]; [now rewrite <- E|].
    cbn [filter]. rewrite Z.eqb_refl. reflexivity.
  - assert (Hx1 : (x =? -1)%Z = false) by (apply Z.eqb_neq; lia).
    destruct (Z.eqb_spec x prev) as [->|Hp].
    + rewrite Hx1, Z.eqb_refl. rewrite (IH prev Hprev), Hx1. reflexivity.
    + assert (Hne : (x =? (if (prev =? -1)%Z then Ctc.blank_id m else prev))%Z = false).
      { apply Z.eqb_neq. destruct (prev =? -1)%Z; assumption. }
      rewrite Hne. cbn [filter].
      apply Z.eqb_neq in Hb. rewrite Hb. cbn [negb map join fold_right].
      rewrite (IH x), Hx1; [reflexivity|]. right. apply Z.eqb_neq in Hb. auto.
Qed.

(** X11.  On indices that are not negative, as an argmax gives them, the
    loop with [prev_idx] is the usual CTC reduction: merge the adjacent
    repeats, drop the blanks, map what is left. *)
Theorem ctc_loop_is_ctc_reduction (m : Ctc.mapping) (char_indices : list Z) :
  Forall (fun idx => 0 <= idx)%Z char_indices ->
  Ctc.greedy m char_indices =
  join (map (Ctc.emit m) (CtcTextbook.reduce (Ctc.blank_id m) char_indices)).
Proof.
  intros Hall. unfold Ctc.greedy, CtcTextbook.reduce.
  destruct char_indices as [|x l]; [reflexivity|].
  inversion Hall as [|? ? Hx Hl]; subst.
  cbn [Ctc.collapse CtcTextbook.dedup filter].
  assert (Hx1 : (x =? -1)%Z = false) by (apply Z.eqb_neq; lia).
  rewrite Hx1.
  destruct (Z.eqb_spec x (Ctc.blank_id m)) as [->|Hb].
  - cbn [negb]. now rewrite (ctc_collapse_dedup m l Hl (-1)%Z) by now left.
  - cbn [negb map join fold_right].
    rewrite (ctc_collapse_dedup m l Hl x), Hx1; [reflexivity|]. right. auto.
Qed.

Lemma ctc_loop_is_ctc_reduction_witness :
  Ctc.greedy (Ctc.mk "blank(0), 0-9(1-10), A-Z(11-33)" 0 1 10 11 33 "0" "A" None)
    [0; 5; 5; 0; 5; 12; 12; 0]%Z = "44B".
Proof.
  rewrite (ctc_loop_is_ctc_reduction
             (Ctc.mk "blank(0), 0-9(1-10), A-Z(11-33)" 0 1 10 11 33 "0" "A" None)
             [0; 5; 5; 0; 5; 12; 12; 0]%Z).
  - reflexivity.
  - repeat constructor; discriminate.
Defined.

(** ** The choice among the CRNN results *)

(** X12.  The choice never invents a text: on a list of results that is
    not empty it returns one of the texts of the list, and the label
    itself when the label is one of them.  A label that is none of them
    has no effect. *)
Theorem crnn_choice_is_a_candidate (expected_text : option string)
  (results : list (string * string)) :
  results <> [] ->
  exists text,
    Select.select expected_text results = Ok text /\
    In text (map snd results) /\
    (forall label, expected_text = Some label -> label <> "" ->
                   In label (map snd results) -> text = label) /\
    (forall label, expected_text = Some label -> ~ In label (map snd results) ->
                   Select.select expected_text results = Select.select None results).
Proof.
  intros Hne.
  destruct (select_ok expected_text results Hne) as (text & Hsel & Hin & Hlabel).
  exists text. split; [assumption|]. split; [assumption|]. split; [assumption|].
  intros label -> Hnot. now apply select_label_absent.
Qed.

Lemma crnn_choice_is_a_candidate_witness :
  Select.select (Some "04B2") [("first", "O4B2"); ("second", "04B2")] = Ok "04B2".
Proof.
  destruct (crnn_choice_is_a_candidate (Some "04B2")
              [("first", "O4B2"); ("second", "04B2")])
    as (text & Hsel & _ & Hlabel & _); [discriminate|].
  rewrite Hsel. f_equal. apply (Hlabel "04B2"); [reflexivity|discriminate|].
  right. left. reflexivity.
Defined.

(** ** The alphabet of the CRNN path *)

Lemma chr_alnum (code : Z) :
  (48 <= code <= 57 \/ 65 <= code <= 90 \/ 97 <= code <= 122)%Z ->
  all_chars is_alnum (chr code) = true.
Proof.
  intros Hr. unfold chr, is_alnum. simpl. rewrite andb_true_r.
  rewrite N_ascii_embedding by lia.
  rewrite !orb_true_iff, !andb_true_iff, !N.leb_le. lia.
Qed.

Lemma ctc_emit_alnum (m : Ctc.mapping) (idx : Z) :
  In m Ctc.mappings_config -> all_chars is_alnum (Ctc.emit m idx) = true.
Proof.
  intros Hin. simpl in Hin.
  repeat (destruct Hin as [<-|Hin]; [|]); try contradiction;
    unfold Ctc.emit, Ctc.in_digits, Ctc.in_letters, Ctc.in_letters2; cbn [Ctc.mk
      Ctc.digit_start Ctc.digit_end Ctc.letter_start Ctc.letter_end Ctc.digit_char
      Ctc.letter_char Ctc.letter2];
    repeat match goal with
           | |- context [(?a <=? ?b)%Z] => destruct (Z.leb_spec a b)
           end;
    cbn [andb negb Z.eqb]; try reflexivity;
    apply chr_alnum;
    change (ord "0") with 48%Z; change (ord "A") with 65%Z; change (ord "a") with 97%Z;
    lia.
Qed.

Lemma ctc_collapse_alnum (m : Ctc.mapping) (l : list Z) :
  In m Ctc.mappings_config ->
  forall prev, all_chars is_alnum (Ctc.collapse m prev l) = true.
Proof.
  intros Hin. induction l as [|idx l IH]; intros prev; simpl; [reflexivity|].
  destruct (idx =? Ctc.blank_id m)%Z; [apply IH|].
  destruct (idx =? prev)%Z; [apply IH|].
  now rewrite all_chars_append, ctc_emit_alnum, IH.
Qed.

Section CrnnAlphabet.

Context {score : Type}.
Variable score_ltb : score -> score -> bool.
Variable score_zero : score.
Variable softmax : list score -> list score.
Variable score_index : score -> option nat.
Hypothesis softmax_length : forall row, List.length (softmax row) = List.length row.

Lemma collapse_top2_alnum (m : Ctc.mapping) (rows : list (list score)) :
  In m Ctc.mappings_config ->
  forall prev text,
    collapse_top2 score_ltb m prev rows = Ok text -> all_chars is_alnum text = true.
Proof.
  intros Hin. induction rows as [|row rows IH]; intros prev text; simpl.
  - now intros [= <-].
  - destruct (top2 score_ltb row) as [p|]; [|discriminate]. cbn [bind].
    destruct (Ctc.choose_top2 m (fst p) (snd p) =? Ctc.blank_id m)%Z; [apply IH|].
    destruct (Ctc.choose_top2 m (fst p) (snd p) =? prev)%Z; [apply IH|].
    destruct (collapse_top2 score_ltb m (Ctc.choose_top2 m (fst p) (snd p)) rows)
      as [t|] eqn:E; [|discriminate].
    cbn [bind]. intros [= <-].
    now rewrite all_chars_append, ctc_emit_alnum, (IH _ _ E).
Qed.

Lemma crnn_results_alnum (ms : list Ctc.mapping) (char_indices : list Z)
  (rows : list (list score)) (results : list (string * string)) :
  (forall m, In m ms -> In m Ctc.mappings_config) ->
  crnn_results score_ltb ms char_indices rows = Ok results ->
  Forall (fun text => all_chars is_alnum text = true) (map snd results).
Proof.
  revert results. induction ms as [|m ms IH]; intros results Hms; simpl.
  - intros [= <-]. constructor.
  - destruct (collapse_top2 score_ltb m (-1)%Z rows) as [t2|] eqn:E2; [|discriminate].
    cbn [bind].
    destruct (crnn_results score_ltb ms char_indices rows) as [rest|]; [|discriminate].
    cbn [bind]. intros [= <-]. cbn [map snd].
    constructor; [apply ctc_collapse_alnum; apply Hms; now left|].
    constructor; [apply (collapse_top2_alnum m rows (Hms m (or_introl eq_refl)) _ _ E2)|].
    apply IH; [|reflexivity]. intros m' Hm'. apply Hms. now right.
Qed.

Local Notation "'postprocess'" :=
  (postprocess_output score_ltb score_zero softmax score_index).

(** X13.  With ["crnn"] in the file name and three dimensions, every text
    the function returns holds only ASCII letters and digits, whatever the
    scores and the label; and on a well-formed time-major array it does
    return one. *)
Theorem crnn_text_is_alphanumeric (output : ndarray score) (model_filename : string)
  (expected_text : option string) :
  contains "crnn" (lower model_filename) = true ->
  get_model_config model_filename <> Special ->
  List.length (shape output) = 3%nat ->
  (forall text, postprocess output model_filename expected_text = Ok text ->
                all_chars is_alnum text = true) /\
  (forall d0 d2, shape output = [d0; 1; d2]%nat -> (1 < d0)%nat -> (1 < d2)%nat ->
                 well_formed output ->
                 exists text, postprocess output model_filename expected_text = Ok text).
Proof using softmax_length.
  intros Hcrnn Hcfg Hrank. split.
  - intros text. unfold postprocess_output.
    destruct (np_min score_ltb (flat output)) as [min_val|]; [|discriminate].
    cbn [bind].
    assert (Hnot : (match get_model_config model_filename with
                    | Special => true | _ => false end) = false).
    { destruct (get_model_config model_filename); congruence. }
    rewrite Hnot, Hcrnn, Hrank. cbn [Nat.eqb andb].
    unfold crnn_path.
    destruct (crnn_rows output) as [rows|]; [|discriminate]. cbn [bind].
    destruct (softmax_if softmax (score_ltb min_val score_zero) rows) as [reshaped|];
      [|discriminate]. cbn [bind].
    destruct (argmax_rows score_ltb reshaped) as [char_indices|]; [|discriminate].
    cbn [bind].
    destruct (crnn_results score_ltb Ctc.mappings_config (map Z.of_nat char_indices)
                reshaped) as [results|] eqn:Hres; [|discriminate].
    cbn [bind]. intros Hsel. apply select_in in Hsel.
    pose proof (crnn_results_alnum _ _ _ _ (fun m H => H) Hres) as Hall.
    rewrite Forall_forall in Hall. now apply Hall.
  - intros d0 d2 Hshape Hd0 Hd2 Hwf.
    destruct (postprocess_crnn score_ltb score_zero softmax score_index softmax_length
                output model_filename expected_text d0 d2 Hcrnn Hcfg Hshape Hd0 Hd2 Hwf)
      as (min_val & reshaped & char_indices & results & _ & _ & _ & _ & Hhd & ->).
    destruct (select_ok expected_text results) as (text & Hsel & _).
    + intros E. rewrite E in Hhd. discriminate.
    + now exists text.
Qed.

End CrnnAlphabet.

Lemma crnn_text_is_alphanumeric_witness :
  all_chars is_alnum "QRST" = true /\
  exists text,
    ZScores.decode
      (ZScores.array [4; 1; 31]
         (ZScores.peaks 31 27 0 ++ ZScores.peaks 31 28 0 ++
          ZScores.peaks 31 29 0 ++ ZScores.peaks 31 30 0))
      "crnn_model.onnx" (Some "QRST") = Ok text.
Proof.
  destruct (crnn_text_is_alphanumeric
              Z.ltb 0%Z ZScores.softmax_shift ZScores.index_of softmax_shift_length
              (ZScores.array [4; 1; 31]
                 (ZScores.peaks 31 27 0 ++ ZScores.peaks 31 28 0 ++
                  ZScores.peaks 31 29 0 ++ ZScores.peaks 31 30 0))
              "crnn_model.onnx" (Some "QRST"))
    as [Halnum Hreturns].
  - reflexivity.
  - discriminate.
  - reflexivity.
  - split.
    + apply Halnum. reflexivity.
    + apply (Hreturns 4 31)%nat; [reflexivity|lia|lia|reflexivity].
Defined.

(** ** The label and the length of the text *)

(** X14.  The last step never raises, and the label changes characters
    only, never their number: with or without a label the text has one
    character for each index below the size of the character set. *)
Theorem label_keeps_the_length (char_set : string) (expected_text : option string)
  (char_indices : list nat) :
  exists text,
    Score.decode_indices char_set expected_text char_indices = Ok text /\
    String.length text =
    List.length (filter (fun idx => idx <? String.length char_set)%nat char_indices).
Proof.
  unfold Score.decode_indices.
  destruct (decode_with_length char_set char_indices) as (std & Hstd & Hlen).
  destruct expected_text as [e|]; [|eauto].
  destruct (nonempty e && _); [|eauto].
  destruct (decode_all_lengths (Score.charset_variants char_set) char_indices
              (String.length char_set) (charset_variants_lengths char_set))
    as (texts & -> & Hn & Hall).
  cbn [bind].
  assert (Hne : texts <> []).
  { intros ->. unfold Score.charset_variants in Hn.
    destruct (_ =? 63)%nat; [discriminate|]. destruct (_ =? 37)%nat; discriminate. }
  pose proof (pick_best_score_nonneg e texts "" (-1)%Z Hne) as Hs.
  pose proof (pick_best_in e texts Hne) as Hin.
  destruct (Score.pick_best e texts "" (-1)%Z) as [best_text best_score].
  simpl in Hs, Hin. apply Z.leb_le in Hs. rewrite Hs.
  exists best_text. split; [reflexivity|].
  rewrite Forall_forall in Hall. now apply Hall.
Qed.

(** ** What the file name and the label can change *)

Lemma get_model_config_lower (f g : string) :
  lower f = lower g -> get_model_config f = get_model_config g.
Proof. intros H. unfold get_model_config. now rewrite H. Qed.

Lemma is_v1_v8_model_lower (f g : string) :
  lower f = lower g -> is_v1_v8_model f = is_v1_v8_model g.
Proof. intros H. unfold is_v1_v8_model. now rewrite H. Qed.

Section FileNameAndLabel.

Context {score : Type}.
Variable score_ltb : score -> score -> bool.
Variable score_zero : score.
Variable softmax : list score -> list score.
Variable score_index : score -> option nat.

Local Notation "'postprocess'" :=
  (postprocess_output score_ltb score_zero softmax score_index).

Lemma single_row_path_lower (logits : bool) (flat_output : list score) (f g : string) :
  lower f = lower g ->
  single_row_path score_ltb softmax score_index logits flat_output f =
  single_row_path score_ltb softmax score_index logits flat_output g.
Proof.
  intros H. unfold single_row_path, v1_v8_block, single_row_logits, single_row_probs.
  now rewrite (get_model_config_lower f g H), (is_v1_v8_model_lower f g H).
Qed.

(** X15.  Only the lower-case form of the file name is ever looked at:
    two names that differ in case alone give the same result on every
    array and label, a text or an exception. *)
Theorem file_name_case_never_matters (output : ndarray score) (f g : string)
  (expected_text : option string) :
  lower f = lower g ->
  postprocess output f expected_text = postprocess output g expected_text.
Proof.
  intros H. unfold postprocess_output, tokenizer_path, generic_indices, resolve_char_set.
  rewrite (get_model_config_lower f g H), H.
  destruct (np_min score_ltb (flat output)) as [min_val|]; [|reflexivity]. cbn [bind].
  destruct (_ && _); [reflexivity|].
  destruct (_ && _); [reflexivity|].
  destruct (shape output) as [|d0 [|d1 [|d2 [|d3 rest]]]]; try reflexivity.
  destruct (d0 =? 1)%nat; [|reflexivity].
  now rewrite (single_row_path_lower _ _ f g H).
Qed.

(** X16.  Where the label is never consulted: on the tokenizer path, on
    the segmented path of the v1..v8 models, and for the models whose
    character set is ["11"].  There the result with a label is the
    result without one. *)
Theorem label_is_not_consulted (output : ndarray score) (f : string)
  (expected_text : option string) :
  (get_model_config f = Special /\ List.length (shape output) = 3%nat) \/
  (is_v1_v8_model f = true /\ (exists n key, get_model_config f = Known n key) /\
   exists d1, shape output = [1; d1]%nat) \/
  (contains "crnn" (lower f) && (List.length (shape output) =? 3)%nat = false /\
   exists n, get_model_config f = Known n "11") ->
  postprocess output f expected_text = postprocess output f None.
Proof.
  intros Hcase. unfold postprocess_output.
  destruct (np_min score_ltb (flat output)) as [min_val|]; [|reflexivity]. cbn [bind].
  destruct Hcase as [[Hcfg Hrank]|[(Hv & (n & key & Hcfg) & d1 & Hshape)|[Hcrnn [n Hcfg]]]].
  - rewrite Hcfg, Hrank. reflexivity.
  - rewrite Hcfg, Hshape. cbn [List.length Nat.eqb andb]. rewrite andb_false_r.
    unfold generic_indices. rewrite Hshape. cbn [Nat.eqb].
    unfold single_row_path, v1_v8_block. rewrite Hv, Hcfg.
    destruct (known_config_pair _ _ _ Hcfg) as (-> & _ & cs & Hcs & _).
    unfold dict_item. rewrite Hcs. cbn [bind].
    destruct (flat_segments score_ltb softmax (score_ltb min_val score_zero) cs
                (String.length cs) (flat output) (seq 0 n)); reflexivity.
  - rewrite Hcfg, Hcrnn. cbn [andb].
    destruct (generic_indices score_ltb softmax score_index
                (score_ltb min_val score_zero) output f) as [[text|char_indices]|];
      try reflexivity.
    cbn [bind]. destruct char_indices as [|idx rest]; [reflexivity|]. cbn [bind].
    rewrite (resolve_char_set_known _ f n "11" "0123456789$" Hcfg eq_refl). cbn [bind].
    unfold Score.decode_indices. destruct expected_text as [e|]; [|reflexivity].
    change (String.length "0123456789$") with 11%nat. cbn [Nat.eqb orb].
    now rewrite andb_false_r.
Qed.

End FileNameAndLabel.

Lemma file_name_case_never_matters_witness :
  ZScores.decode (ZScores.array [1; 3] [0; 2; 1]%Z) "Captcha_Model_V2.ONNX" None =
  ZScores.decode (ZScores.array [1; 3] [0; 2; 1]%Z) "captcha_model_v2.onnx" None.
Proof.
  apply (file_name_case_never_matters Z.ltb 0%Z ZScores.softmax_shift ZScores.index_of).
  reflexivity.
Defined.


Lemma label_is_not_consulted_witness :
  ZScores.decode (ZScores.array [6; 11] (List.concat (repeat (ZScores.peaks 11 3 0) 6)))
    "model_v2.onnx" (Some "1") = Ok "333333".
Proof.
  unfold ZScores.decode.
  rewrite (label_is_not_consulted Z.ltb 0%Z ZScores.softmax_shift ZScores.index_of
             (ZScores.array [6; 11] (List.concat (repeat (ZScores.peaks 11 3 0) 6)))
             "model_v2.onnx" (Some "1")).
  - reflexivity.
  - right. right. split; [reflexivity|]. exists 6%nat. reflexivity.
Defined.

(** ** The declared input shape *)

Lemma num_channels_ok (input_shape : list dim) :
  exists c, num_channels input_shape = Ok c /\ (c = 1 \/ c = 3)%Z.
Proof.
  assert (Hint : forall d, dim_is d 1 || dim_is d 3 = true ->
                           exists c, int_of_dim d = Ok c /\ (c = 1 \/ c = 3)%Z).
  { intros [n| |]; simpl; try discriminate.
    rewrite orb_true_iff, !Z.eqb_eq. eauto. }
  unfold num_channels.
  destruct input_shape as [|d0 [|d1 rest]]; try solve [exists 1%Z; auto].
  destruct (dim_is d1 1 || dim_is d1 3) eqn:E1; [now apply Hint|].
  destruct rest as [|d2 [|d3 [|d4 rest]]]; try solve [exists 1%Z; auto].
  destruct (dim_is d3 1 || dim_is d3 3) eqn:E3; [now apply Hint|].
  exists 1%Z. auto.
Qed.

(** X17.  The number of channels is always found and is 1 or 3, whatever
    the declared shape, names of dynamic axes included; and the mode the
    image is converted to agrees with it: grayscale for 1, RGB for 3. *)
Theorem channels_are_1_or_3 (input_shape : list dim) (model_filename : string) :
  (exists c, num_channels input_shape = Ok c /\ (c = 1 \/ c = 3)%Z) /\
  forall settings, prepare input_shape model_filename = Ok settings ->
                   (channels settings = 1%Z /\ mode settings = L) \/
                   (channels settings = 3%Z /\ mode settings = RGB).
Proof.
  destruct (num_channels_ok input_shape) as (c & Hc & Hval).
  split; [eauto|]. intros settings. unfold prepare. rewrite Hc. cbn [bind].
  destruct (target_size input_shape) as [target|]; [|discriminate]. cbn [bind].
  intros [= <-]. unfold preprocess_settings.
  destruct (contains "captcha.onnx" (lower model_filename)); [right; auto|].
  destruct (is_v1_v8_model model_filename); [left; auto|].
  destruct Hval as [-> | ->]; [left|right]; auto.
Qed.

(** X18.  A channel-first and a channel-last declaration of the same
    input are read alike, provided the height is neither 1 nor 3: the
    same channels and the same (width, height), hence the same settings,
    whatever stands on the batch axis.  A channel-last declaration whose
    height is 1 or 3 is read as channel-first. *)
Theorem both_layouts_are_read_alike (batch batch' : dim) (c height width : Z)
  (model_filename : string) :
  (c = 1 \/ c = 3)%Z ->
  prepare [batch; DInt c; DInt height; DInt width] model_filename =
    Ok (preprocess_settings (width, height) c model_filename) /\
  (height <> 1 -> height <> 3 ->
   prepare [batch'; DInt height; DInt width; DInt c] model_filename =
     Ok (preprocess_settings (width, height) c model_filename))%Z /\
  ((height = 1 \/ height = 3)%Z ->
   prepare [batch'; DInt height; DInt width; DInt c] model_filename =
     Ok (preprocess_settings (c, width) height model_filename)).
Proof.
  intros Hc.
  assert (Hyes : forall n, (n = 1 \/ n = 3)%Z -> dim_is (DInt n) 1 || dim_is (DInt n) 3 = true).
  { intros n Hn. simpl. rewrite orb_true_iff, !Z.eqb_eq. exact Hn. }
  assert (Hno : forall n, (n <> 1 -> n <> 3 ->
                           dim_is (DInt n) 1 || dim_is (DInt n) 3 = false)%Z).
  { intros n H1 H3. simpl. apply orb_false_iff. split; now apply Z.eqb_neq. }
  unfold prepare, num_channels, target_size. split; [|split].
  - rewrite (Hyes c Hc). reflexivity.
  - intros H1 H3. rewrite (Hno height H1 H3), (Hyes c Hc). reflexivity.
  - intros Hh. rewrite (Hyes height Hh). reflexivity.
Qed.

Lemma both_layouts_are_read_alike_witness :
  prepare [DName "batch"; DInt 50; DInt 200; DInt 1] "net.onnx" =
  prepare [DNone; DInt 1; DInt 50; DInt 200] "net.onnx".
Proof.
  destruct (both_layouts_are_read_alike DNone (DName "batch") 1 50 200 "net.onnx")
    as (Hfirst & Hlast & _); [now left|].
  rewrite Hfirst. apply Hlast; discriminate.
Defined.

Lemma channels_are_1_or_3_witness :
  exists settings,
    prepare [DName "N"; DInt 3; DInt 32; DInt 128] "net.onnx" = Ok settings /\
    channels settings = 3%Z /\ mode settings = RGB.
Proof.
  destruct (channels_are_1_or_3 [DName "N"; DInt 3; DInt 32; DInt 128] "net.onnx")
    as [_ Hmode].
  eexists. split; [reflexivity|].
  destruct (Hmode _ eq_refl) as [[H _]|H]; [discriminate H|exact H].
Defined.

(** ** From the inference to the recorded text *)

Section Pipeline.

Context {score : Type}.
Variable score_ltb : score -> score -> bool.
Variable score_zero : score.
Variable softmax : list score -> list score.
Variable score_index : score -> option nat.

Local Notation "'postprocess'" :=
  (postprocess_output score_ltb score_zero softmax score_index).
Local Notation "'on_image'" :=
  (test_model_on_image score_ltb score_zero softmax score_index).

(** X19.  What [test_model] records for an image is a text exactly when
    the inference gave a first output that decodes, with the stem of the
    image as the label, to a text that is not empty.  An exception
    anywhere and an empty text are recorded alike, as [None]. *)
Theorem recorded_text_spec (inference : result (list (ndarray score)))
  (model_filename stem : string) (text : string) :
  recorded_text (on_image inference model_filename stem) = Some text <->
  text <> "" /\
  exists output rest,
    inference = Ok (output :: rest) /\
    postprocess output model_filename (Some stem) = Ok text.
Proof.
  unfold recorded_text, test_model_on_image, first_output. split.
  - destruct inference as [[|output rest]|e]; cbn [bind]; try discriminate.
    destruct (postprocess output model_filename (Some stem)) as [t|] eqn:Hpost;
      [|discriminate].
    destruct (nonempty t) eqn:E; [|discriminate].
    intros [= <-]. split; [intros ->; discriminate|]. now exists output, rest.
  - intros (Hne & output & rest & -> & Hpost). cbn [bind]. rewrite Hpost.
    destruct (nonempty text) eqn:E; [reflexivity|].
    apply nonempty_false in E. contradiction.
Qed.

End Pipeline.

(** ** The version tag of a file name *)

Lemma take_digits_app (ds rest : string) :
  all_digits ds = true -> no_digit_ahead rest -> take_digits (ds ++ rest) = ds.
Proof.
  intros Hds Hrest. induction ds as [|c ds IH]; simpl in *.
  - destruct rest as [|c rest]; [reflexivity|]. simpl in *. now rewrite Hrest.
  - apply andb_true_iff in Hds as [Hc Hds]. now rewrite Hc, IH.
Qed.

Lemma tag_free_tail (c : ascii) (s : string) : tag_free (String c s) -> tag_free s.
Proof.
  intros H a b d E. apply (H (String c a) b d). simpl. now rewrite E.
Qed.

Lemma search_version_skips (pre rest ds : string) :
  tag_free pre -> take_digits rest = ds -> ds <> "" ->
  search_version (pre ++ String "v"%char rest) = Some ds.
Proof.
  intros Hfree Hds Hne. induction pre as [|c pre IH]; simpl.
  - rewrite Hds. destruct ds; [contradiction|reflexivity].
  - specialize (IH (tag_free_tail _ _ Hfree)).
    destruct (Ascii.eqb_spec c "v"%char) as [->|_]; [|exact IH].
    destruct pre as [|c' pre]; simpl; [exact IH|].
    rewrite (Hfree "" pre c' eq_refl). exact IH.
Qed.

(** X20.  The configuration is decided by the first ["v"] of the
    lower-cased file name that is followed by a digit, wherever it
    stands, with all the digits that follow it: the name is looked up as
    ["v" + digits] in [MODEL_CONFIGS], and a tag that is not one of
    v1..v8 gives no configuration even when a later one is. *)
Theorem first_version_tag_decides (model_filename before digits rest : string) :
  special_name (lower model_filename) = false ->
  lower model_filename = (before ++ String "v"%char (digits ++ rest))%string ->
  tag_free before -> digits <> "" -> all_digits digits = true ->
  no_digit_ahead rest ->
  get_model_config model_filename =
  match dict_get MODEL_CONFIGS (String "v"%char digits) with
  | Some (seq_len, key) => Known seq_len key
  | None => NoConfig
  end.
Proof.
  intros Hspecial Hname Hfree Hne Hds Hrest.
  unfold get_model_config. unfold special_name in Hspecial. rewrite Hspecial.
  rewrite Hname.
  now rewrite (search_version_skips before (digits ++ rest) digits Hfree
                 (take_digits_app digits rest Hds Hrest) Hne).
Qed.

Lemma first_version_tag_decides_witness :
  get_model_config "Conv2_captcha_model_v10.onnx" = Known 6 "11".
Proof.
  apply (first_version_tag_decides "Conv2_captcha_model_v10.onnx"
           "con" "2" "_captcha_model_v10.onnx").
  - reflexivity.
  - reflexivity.
  - intros a b c E.
    destruct a as [|a0 [|a1 [|a2 [|a3 a]]]]; simpl in E; discriminate.
  - discriminate.
  - reflexivity.
  - reflexivity.
Defined.

(** ** The batch axis of a three-dimensional output *)

Lemma reshape_rows_firstn {A : Type} (n_rows n_cols : nat) (l : list A) :
  reshape_rows n_rows n_cols (firstn (n_rows * n_cols) l) = reshape_rows n_rows n_cols l.
Proof.
  revert l. induction n_rows as [|n IH]; intros l; [reflexivity|].
  cbn [reshape_rows]. change (S n * n_cols)%nat with (n_cols + n * n_cols)%nat.
  rewrite firstn_firstn, Nat.min_l by lia.
  rewrite skipn_firstn_comm.
  replace (n_cols + n * n_cols - n_cols)%nat with (n * n_cols)%nat by lia.
  now rewrite IH.
Qed.

Section FirstBatchEntry.

Context {score : Type}.
Variable score_ltb : score -> score -> bool.
Variable score_zero : score.
Variable softmax : list score -> list score.
Variable score_index : score -> option nat.

Local Notation "'postprocess'" :=
  (postprocess_output score_ltb score_zero softmax score_index).

(** X21.  Of a three-dimensional output the entries of the batch axis
    after the first are read by [np.min] alone, which decides whether the
    softmax is applied: when the minimum of the whole array and the
    minimum of its first entry lie on the same side of zero, the result
    is the result on the first entry alone.  This holds on the tokenizer
    path and on the generic path of a model of [MODEL_CONFIGS]. *)
Theorem only_first_batch_entry_is_read (output : ndarray score) (model_filename : string)
  (expected_text : option string) (d0 d1 d2 : nat) :
  shape output = [d0; d1; d2]%nat -> well_formed output -> (0 < d0)%nat ->
  get_model_config model_filename = Special \/
  (contains "crnn" (lower model_filename) = false /\
   exists seq_len key, get_model_config model_filename = Known seq_len key) ->
  (forall min_all min_first,
      np_min score_ltb (flat output) = Ok min_all ->
      np_min score_ltb (firstn (d1 * d2) (flat output)) = Ok min_first ->
      score_ltb min_all score_zero = score_ltb min_first score_zero) ->
  postprocess output model_filename expected_text =
  postprocess {| shape := [1; d1; d2]%nat; flat := firstn (d1 * d2) (flat output) |}
    model_filename expected_text.
Proof.
  intros Hshape Hwf Hd0 Hcfg Hflag.
  unfold well_formed in Hwf. rewrite Hshape, size_of_3 in Hwf.
  unfold postprocess_output. cbn [shape flat]. rewrite Hshape.
  destruct (Nat.eq_dec (d1 * d2) 0) as [Hz|Hnz].
  - assert (E : flat output = []).
    { apply length_zero_iff_nil. rewrite Hwf. nia. }
    rewrite E, firstn_nil. reflexivity.
  - assert (Hlen1 : List.length (firstn (d1 * d2) (flat output)) = (d1 * d2)%nat).
    { rewrite length_firstn. nia. }
    assert (Hne : flat output <> []).
    { intros E. rewrite E in Hwf. simpl in Hwf. nia. }
    assert (Hne1 : firstn (d1 * d2) (flat output) <> []).
    { intros E. rewrite E in Hlen1. simpl in Hlen1. lia. }
    destruct (np_min_ok score_ltb _ Hne) as [min_all Hall].
    destruct (np_min_ok score_ltb _ Hne1) as [min_first Hfirst].
    rewrite Hall, Hfirst. cbn [bind List.length Nat.eqb andb].
    rewrite (Hflag min_all min_first Hall Hfirst).
    destruct Hcfg as [Hs|(Hcrnn & seq_len & key & Hk)].
    + rewrite Hs. cbn [andb]. unfold tokenizer_path. cbn [shape flat]. rewrite Hshape.
      now rewrite reshape_rows_firstn.
    + rewrite Hk, Hcrnn. cbn [andb]. unfold generic_indices. cbn [shape flat].
      rewrite Hshape.
      destruct (known_config_pair _ _ _ Hk) as (_ & _ & cs & Hcs & _).
      rewrite !(resolve_char_set_known _ _ _ _ _ Hk Hcs).
      now rewrite reshape_rows_firstn.
Qed.

End FirstBatchEntry.

Lemma only_first_batch_entry_is_read_witness :
  ZScores.decode
    (ZScores.array [2; 2; 3] [0; 5; 1; 4; 0; 0; 9; 9; 9; 7; 9; 9]%Z) "model.onnx" None =
  ZScores.decode (ZScores.array [1; 2; 3] [0; 5; 1; 4; 0; 0]%Z) "model.onnx" None.
Proof.
  apply (only_first_batch_entry_is_read Z.ltb 0%Z ZScores.softmax_shift
           ZScores.index_of
           (ZScores.array [2; 2; 3] [0; 5; 1; 4; 0; 0; 9; 9; 9; 7; 9; 9]%Z)
           "model.onnx" None 2 2 3).
  - reflexivity.
  - reflexivity.
  - lia.
  - now left.
  - intros min_all min_first Hall Hfirst. vm_compute in Hall, Hfirst.
    injection Hall as <-. injection Hfirst as <-. reflexivity.
Defined.
